(** * brielov/runtime: the schema validation engine

    A shallow embedding of [src/schema.ts], of its twin [src/mod.ts],
    and of the parts of [result.ts], [option.ts] and [util.ts] they call,
    followed by the properties of the validation engine.

    JavaScript values are modelled as data: [undefined], [null],
    booleans, binary64 numbers, strings, dates, opaque functions, arrays,
    and objects made of a prototype and own data properties.  A read of a
    property of such a value runs no code and cannot throw.  Symbols,
    bigints, inputs with accessor properties, proxies and the call stack
    limit are outside the model; what is proved about validators not
    throwing is proved for inputs that are data.

    Validators are modelled as computations that record the functions of
    the container layer ([result.ts], [option.ts]) they enter and that
    either return or throw, so that "does not throw", "does not call
    [unwrap]" and "does not invoke the child" are statements about them. *)

From Stdlib Require Import List String Ascii Bool Arith NArith Lia PrimFloat.
From Stdlib Require Import DecimalString DecimalNat DecimalN.
Import ListNotations.
Set Warnings "-register-all,-inexact-float".
Local Open Scope string_scope.
Local Open Scope list_scope.

(* ================================================================== *)
(** ** JavaScript values *)
(* ================================================================== *)

Module Js.

(** What [Object.getPrototypeOf] can answer for the values below. *)
Inductive Prototype : Type :=
| NullPrototype                       (* Object.create(null) *)
| ObjectPrototype                     (* Object.prototype: literals, JSON *)
| ArrayPrototype
| DatePrototype
| FunctionPrototype
| StringPrototype
| NumberPrototype
| BooleanPrototype
| ClassPrototype (name : string).     (* a user class extending no built-in *)

Inductive Value : Type :=
| VUndefined
| VNull
| VBoolean (b : bool)
| VNumber (n : float)                 (* IEEE 754 binary64 *)
| VString (s : string)
| VDate (time : float)                (* a Date and its time value *)
| VFunction (name : string)
| VArray (elements : list Value)      (* a hole reads as undefined *)
| VObject (proto : Prototype) (own : list (string * Value)).

(** An object's own properties are kept as the sequence of writes that
    made it, oldest first: a literal [{a: 1, b: 2}] is [[("a", 1); ("b", 2)]]
    and [obj[key] = value] appends.  Reading returns the latest write. *)
Fixpoint lookup {A : Type} (key : string) (object : list (string * A)) : option A :=
  match object with
  | [] => None
  | (k, v) :: later =>
      match lookup key later with
      | Some v' => Some v'
      | None => if String.eqb k key then Some v else None
      end
  end.

(** [obj[key] = value] on an object without setters. *)
Definition assign {A : Type} (object : list (string * A)) (key : string) (value : A)
  : list (string * A) :=
  object ++ [(key, value)].

(** [typeof] *)
Definition typeof (v : Value) : string :=
  match v with
  | VUndefined => "undefined"
  | VNull => "object"
  | VBoolean _ => "boolean"
  | VNumber _ => "number"
  | VString _ => "string"
  | VDate _ => "object"
  | VFunction _ => "function"
  | VArray _ => "object"
  | VObject _ _ => "object"
  end.

(** [Number.isFinite]: false on everything that is not a number, and on
    NaN and the two infinities. *)
Definition isFinite (v : Value) : bool :=
  match v with
  | VNumber n => PrimFloat.is_finite n
  | _ => false
  end.

(** [Object.getPrototypeOf]; [None] stands for the TypeError it raises on
    [undefined] and [null]. *)
Definition getPrototypeOf (v : Value) : option Prototype :=
  match v with
  | VUndefined | VNull => None
  | VBoolean _ => Some BooleanPrototype
  | VNumber _ => Some NumberPrototype
  | VString _ => Some StringPrototype
  | VDate _ => Some DatePrototype
  | VFunction _ => Some FunctionPrototype
  | VArray _ => Some ArrayPrototype
  | VObject proto _ => Some proto
  end.

(** The function-valued members every object inherits from
    [Object.prototype]. *)
Definition objectPrototypeMethods : list (string * Value) :=
  [ ("constructor", VFunction "Object");
    ("__defineGetter__", VFunction "__defineGetter__");
    ("__defineSetter__", VFunction "__defineSetter__");
    ("hasOwnProperty", VFunction "hasOwnProperty");
    ("__lookupGetter__", VFunction "__lookupGetter__");
    ("__lookupSetter__", VFunction "__lookupSetter__");
    ("isPrototypeOf", VFunction "isPrototypeOf");
    ("propertyIsEnumerable", VFunction "propertyIsEnumerable");
    ("toString", VFunction "toString");
    ("valueOf", VFunction "valueOf");
    ("toLocaleString", VFunction "toLocaleString") ].

(** [Object.prototype] itself: an object without prototype, on which
    [__proto__] reads [null]. *)
Definition objectPrototype : Value :=
  VObject NullPrototype (objectPrototypeMethods ++ [("__proto__", VNull)]).

(** What a read finds on the prototype when the object has no own property
    of that name.  [__proto__] answers with the prototype. *)
Definition inherited (proto : Prototype) (key : string) : Value :=
  match proto with
  | ObjectPrototype =>
      if String.eqb key "__proto__" then objectPrototype
      else match lookup key objectPrototypeMethods with
           | Some member => member
           | None => VUndefined
           end
  | _ => VUndefined
  end.

(** The read [input[key]], for the receivers the engine reads from: values
    that passed [isPlainObject], whose prototype is null or
    [Object.prototype].  The engine reads from no other receiver; they
    answer [undefined] here.  Every property of a [Value] is a data
    property, so the read is a function: an input whose read would run a
    getter, which may throw, is not a [Value]. *)
Definition get (input : Value) (key : string) : Value :=
  match input with
  | VObject proto own =>
      match lookup key own with
      | Some v => v
      | None => inherited proto key
      end
  | _ => VUndefined
  end.

(** [i.toString()] for a loop counter. *)
Definition toString (i : nat) : string := NilZero.string_of_uint (Nat.to_uint i).

(** An array index is a key that is the canonical decimal form of an
    integer between 0 and 2^32 - 2. *)
Definition arrayIndex (key : string) : option N :=
  match NilZero.uint_of_string key with
  | Some d =>
      let n := N.of_uint d in
      if (String.eqb (NilZero.string_of_uint (N.to_uint n)) key && (n <=? 4294967294)%N)%bool
      then Some n else None
  | None => None
  end.

Definition isArrayIndex (key : string) : bool :=
  match arrayIndex key with Some _ => true | None => false end.

Definition indexKey (n : N) : string := NilZero.string_of_uint (N.to_uint n).

(** Insertion into an ascending list of indices, without repetition. *)
Fixpoint insertIndex (n : N) (sorted : list N) : list N :=
  match sorted with
  | [] => [n]
  | m :: rest =>
      if (n <? m)%N then n :: sorted
      else if (n =? m)%N then sorted
      else m :: insertIndex n rest
  end.

Fixpoint indices (keys : list string) : list N :=
  match keys with
  | [] => []
  | key :: rest =>
      match arrayIndex key with
      | Some n => insertIndex n (indices rest)
      | None => indices rest
      end
  end.

(** Keeps the first occurrence of every key. *)
Fixpoint distinct (keys : list string) : list string :=
  match keys with
  | [] => []
  | key :: rest =>
      key :: filter (fun k => negb (String.eqb k key)) (distinct rest)
  end.

(** The keys [for (const key in object)] visits, for an object whose
    properties are all own and enumerable: array indices in ascending
    numeric order, then the other names in the order they were first
    written. *)
Definition forIn {A : Type} (object : list (string * A)) : list string :=
  let keys := map fst object in
  map indexKey (indices keys)
  ++ distinct (filter (fun k => negb (isArrayIndex k)) keys).

End Js.

(* ================================================================== *)
(** ** Evaluation: exceptions and the record of container calls *)
(* ================================================================== *)

Module Eval.

(** The exported functions of [result.ts] and [option.ts] that the two
    schema modules can reach. *)
Inductive Call : Type :=
| CallOk | CallErr | CallIsOk | CallIsErr | CallMatch | CallMap
| CallUnwrap | CallUnwrapErr | CallExpect | CallExpectErr
| CallSome | CallFrom.

(** A call either returns or throws an [Error] with a message. *)
Inductive Outcome (A : Type) : Type :=
| Returned (a : A)
| Thrown (message : string).
Arguments Returned {A} a.
Arguments Thrown {A} message.

(** A computation: the container functions it entered, in order, and how
    it ended. *)
Definition M (A : Type) : Type := (list Call * Outcome A)%type.

Definition ret {A : Type} (a : A) : M A := ([], Returned a).

Definition bind {A B : Type} (m : M A) (f : A -> M B) : M B :=
  match m with
  | (before, Returned a) => let (after, o) := f a in (before ++ after, o)
  | (before, Thrown message) => (before, Thrown message)
  end.

Definition enter (c : Call) : M unit := ([c], Returned tt).

Definition throw {A : Type} (message : string) : M A := ([], Thrown message).

Definition outcome {A : Type} (m : M A) : Outcome A := snd m.

End Eval.

Import Js Eval.

Declare Scope eval_scope.
Delimit Scope eval_scope with eval.
Notation "x <- m ;; k" := (bind m (fun x => k))
  (at level 61, m at next level, right associativity) : eval_scope.
Notation "m ;; k" := (bind m (fun _ => k))
  (at level 61, right associativity) : eval_scope.
Local Open Scope eval_scope.

(* ================================================================== *)
(** ** Dates *)
(* ================================================================== *)

Module JsDate.

(** [input instanceof Date]: [Date.prototype] is on the prototype chain.
    Of the values above it is the prototype of a date and of an object made
    by [Object.create(Date.prototype)]; the chains of the other objects go
    through none of the built-in prototypes but [Object.prototype]. *)
Definition instanceofDate (input : Value) : bool :=
  match getPrototypeOf input with
  | Some DatePrototype => true
  | _ => false
  end.

(** The TypeError of [Date.prototype.getTime] on a receiver that is not a
    date, of a call of something that is not a function, and the error
    that stands for a call of a function value.  Function values are
    opaque: their code is not in the model, so what a call of one does is
    not evaluated. *)
Definition notADate : string := "TypeError: this is not a Date object.".
Definition notAFunction : string := "TypeError: input.getTime is not a function".
Definition opaqueCall (name : string) : string := "call of the function " ++ name.

(** [input.getTime()], for the receivers that pass [instanceof Date].  A
    date answers its time value.  An object made from [Date.prototype] is
    not a date: the method it inherits throws a TypeError; when it has an
    own property [getTime] that one is called instead. *)
Definition getTime (input : Value) : M float :=
  match input with
  | VDate time => ret time
  | VObject _ own =>
      match lookup "getTime" own with
      | None => throw notADate
      | Some (VFunction name) => throw (opaqueCall name)
      | Some _ => throw notAFunction
      end
  | _ => throw notAFunction
  end.

End JsDate.

(* ================================================================== *)
(** ** util.ts *)
(* ================================================================== *)

Module UtilTs.

Definition isNil (value : Value) : bool :=
  (String.eqb (typeof value) "undefined"
   || match value with VNull => true | _ => false end)%bool.

Definition isPresent (value : Value) : bool := negb (isNil value).

Definition identity {T : Type} (value : T) : T := value.

Definition isPlainObject (input : Value) : bool :=
  if isNil input then false
  else match getPrototypeOf input with
       | Some NullPrototype => true
       | Some ObjectPrototype => true
       | _ => false
       end.

(** [throw new Error(message, { cause })]; the cause travels with the
    error object and nothing here reads it. *)
Definition raise {A : Type} (message : string) : M A := throw message.

End UtilTs.

(* ================================================================== *)
(** ** result.ts *)
(* ================================================================== *)

Module ResultTs.
Import UtilTs.

Inductive Result (T E : Type) : Type :=
| ResOk (value : T)                   (* { ok: true, value } *)
| ResErr (error : E).                 (* { ok: false, error } *)
Arguments ResOk {T E} value.
Arguments ResErr {T E} error.

Definition Ok {T E : Type} (value : T) : M (Result T E) :=
  enter CallOk ;; ret (ResOk value).

Definition Err {T E : Type} (error : E) : M (Result T E) :=
  enter CallErr ;; ret (ResErr error).

(** The field [result.ok]. *)
Definition ok {T E : Type} (result : Result T E) : bool :=
  match result with ResOk _ => true | ResErr _ => false end.

Definition isOk {T E : Type} (result : Result T E) : M bool :=
  enter CallIsOk ;; ret (ok result).

Definition isErr {T E : Type} (result : Result T E) : M bool :=
  enter CallIsErr ;; ret (negb (ok result)).

(** [isOk(result) ? onOk(result.value) : onErr(result.error)]: the test
    and the two narrowed field reads are one case analysis. *)
Definition match_ {T E U : Type} (result : Result T E)
    (onOk : T -> M U) (onErr : E -> M U) : M U :=
  enter CallMatch ;;
  _ <- isOk result ;;
  match result with
  | ResOk value => onOk value
  | ResErr error => onErr error
  end.

Definition expect {T E : Type} (result : Result T E) (message : string) : M T :=
  enter CallExpect ;;
  match_ result (fun value => ret (identity value)) (fun error => raise message).

Definition expectErr {T E : Type} (result : Result T E) (message : string) : M E :=
  enter CallExpectErr ;;
  match_ result (fun value => raise message) (fun error => ret (identity error)).

(** [result as Result<U, E>] on the error side is the same error. *)
Definition map {T E U : Type} (result : Result T E) (fn : T -> M U) : M (Result U E) :=
  enter CallMap ;;
  match_ result
    (fun value => u <- fn value ;; Ok u)
    (fun error => ret (ResErr error)).

Definition unwrap {T E : Type} (result : Result T E) : M T :=
  enter CallUnwrap ;;
  match_ result
    (fun value => ret (identity value))
    (fun error => raise "called `Result.unwrap` on an `Err` value").

Definition unwrapErr {T E : Type} (result : Result T E) : M E :=
  enter CallUnwrapErr ;;
  match_ result
    (fun value => raise "called `Result.unwrapErr` on an `Ok` value")
    (fun error => ret (identity error)).

End ResultTs.

(* ================================================================== *)
(** ** option.ts *)
(* ================================================================== *)

Module OptionTs.
Import UtilTs.

(** [{ some: true, value }] *)
Definition Some_ (value : Value) : M Value :=
  enter CallSome ;;
  ret (VObject ObjectPrototype [("some", VBoolean true); ("value", value)]).

(** [{ some: false }], one frozen object. *)
Definition None_ : Value := VObject ObjectPrototype [("some", VBoolean false)].

Definition from (value : Value) : M Value :=
  enter CallFrom ;;
  if isNil value then ret None_ else Some_ value.

End OptionTs.

(* ================================================================== *)
(** ** The schema interface *)
(* ================================================================== *)

Module Interface.
Import ResultTs.

(** [schema.ts] and [mod.ts] declare [ParseError] and [Schema] with the
    same fields; one declaration serves both. *)
Record ParseError : Type := mkParseError {
  path : list string;
  message : string;
  input : Value
}.

(** [Schema<T>], with the [shape] field [ObjectSchema<T>] adds to it.  A
    schema is a value holding its validator; the validated [T] lives among
    the JavaScript values. *)
Inductive Schema : Type := mkSchema {
  type : string;
  parse : Value -> M (Result Value ParseError);
  shape : option (list (string * Schema))
}.

End Interface.

(* ================================================================== *)
(** ** schema.ts *)
(* ================================================================== *)

Module SchemaTs.
Import JsDate UtilTs ResultTs OptionTs Interface.

Definition createErr (message : string) (input : Value) : M (Result Value ParseError) :=
  Err {| path := []; message := message; input := input |}.

(** [error.path.unshift(segment)]: the error object is the one the child
    made for this call, changed in place. *)
Definition unshift (error : ParseError) (segment : string) : ParseError :=
  {| path := segment :: path error; message := message error; input := input error |}.

(** The read [result.error.path]; on a result without [error] it is a
    TypeError. *)
Definition readError (result : Result Value ParseError) : M ParseError :=
  match result with
  | ResErr error => ret error
  | ResOk _ => throw "TypeError: Cannot read properties of undefined (reading 'path')"
  end.

(** The read [result.value]; [undefined] on a result without [value]. *)
Definition readValue (result : Result Value ParseError) : Value :=
  match result with
  | ResOk value => value
  | ResErr _ => VUndefined
  end.

Definition string : Schema := {|
  type := "string";
  parse := fun input =>
    if String.eqb (typeof input) "string"
    then Ok input
    else createErr "Expecting string" input;
  shape := None
|}.

Definition number : Schema := {|
  type := "number";
  parse := fun input =>
    if (String.eqb (typeof input) "number" && isFinite input)%bool
    then Ok input
    else createErr "Expecting number" input;
  shape := None
|}.

Definition boolean : Schema := {|
  type := "boolean";
  parse := fun input =>
    if String.eqb (typeof input) "boolean"
    then Ok input
    else createErr "Expecting boolean" input;
  shape := None
|}.

(** [input instanceof Date && Number.isFinite(input.getTime())]: the
    time is read only of an input that passed [instanceof]; the result is
    [new Date(input)], a date with the same time value. *)
Definition date : Schema := {|
  type := "date";
  parse := fun input =>
    if instanceofDate input then
      time <- getTime input ;;
      if PrimFloat.is_finite time
      then Ok (VDate time)
      else createErr "Expecting valid date" input
    else createErr "Expecting valid date" input;
  shape := None
|}.

(** The [for] loop of [array]: [i] counts the elements done, [rest] are
    the elements from [input[i]] on, [arr] holds [arr[0..i-1]]. *)
Fixpoint arrayLoop (schema : Schema) (i : nat) (rest : list Value) (arr : list Value)
  : M (Result Value ParseError) :=
  match rest with
  | [] => Ok (VArray arr)
  | element :: rest' =>
      result <- parse schema element ;;
      failed <- isErr result ;;
      if failed : bool then
        error <- readError result ;;
        ret (ResErr (unshift error (toString i)))
      else
        arrayLoop schema (S i) rest' (arr ++ [readValue result])
  end.

Definition array (schema : Schema) : Schema := {|
  type := "array<" ++ type schema ++ ">";
  parse := fun input =>
    match input with
    | VArray elements => arrayLoop schema 0 elements []
    | _ => createErr "Expecting array" input
    end;
  shape := None
|}.

(** The [for ... in] loop of [object] over the keys still to visit; [obj]
    holds the properties written so far. *)
Fixpoint objectLoop (shape : list (String.string * Schema)) (input : Value)
    (keys : list String.string) (obj : list (String.string * Value))
  : M (Result Value ParseError) :=
  match keys with
  | [] => Ok (VObject NullPrototype obj)
  | key :: keys' =>
      match lookup key shape with
      | None => throw "TypeError: Cannot read properties of undefined (reading 'parse')"
      | Some schema =>
          result <- parse schema (get input key) ;;
          failed <- isErr result ;;
          if failed : bool then
            error <- readError result ;;
            ret (ResErr (unshift error key))
          else
            objectLoop shape input keys' (assign obj key (readValue result))
      end
  end.

Definition object (shape : list (String.string * Schema)) : Schema := {|
  shape := Some shape;
  type := "object";
  parse := fun input =>
    if negb (isPlainObject input) then createErr "Expecting object" input
    else objectLoop shape input (forIn shape) []
|}.

Definition optional (schema : Schema) : Schema := {|
  shape := shape schema;
  type := "option<" ++ type schema ++ ">";
  parse := fun input =>
    if isNil input then Ok None_
    else result <- parse schema input ;; map result from
|}.

Definition defaulted (schema : Schema) (defaultValue : Value) : Schema := {|
  shape := shape schema;
  type := type schema;
  parse := fun input =>
    if isNil input then Ok defaultValue else parse schema input
|}.

(** The schemas the constructors make. *)
Inductive built : Schema -> Prop :=
| built_string : built string
| built_number : built number
| built_boolean : built boolean
| built_date : built date
| built_array (schema : Schema) : built schema -> built (array schema)
| built_object (shape : list (String.string * Schema)) :
    (forall key schema, In (key, schema) shape -> built schema) ->
    built (object shape)
| built_optional (schema : Schema) : built schema -> built (optional schema)
| built_defaulted (schema : Schema) (defaultValue : Value) :
    built schema -> built (defaulted schema defaultValue).

End SchemaTs.

(* ================================================================== *)
(** ** mod.ts *)
(* ================================================================== *)

(** Modelled from the spec: the [oxido] package, from which [mod.ts]
    imports [Ok], [Err], [Some], [None] and the result methods [isErr],
    [unwrap], [unwrapErr] and [map], is not among the sources.  The spec
    (4.1) gives its contract: [Result] is [Ok]/[Err], [Option] is
    [Some]/[None], and [unwrap]/[unwrapErr] are fatal on the wrong
    variant.  The functions of the same names in [result.ts] and
    [option.ts] have this contract and stand for the package. *)
Module Oxido.

Definition Ok {T E : Type} : T -> M (ResultTs.Result T E) := ResultTs.Ok.
Definition Err {T E : Type} : E -> M (ResultTs.Result T E) := ResultTs.Err.
Definition isErr {T E : Type} : ResultTs.Result T E -> M bool := ResultTs.isErr.
(** Modelled from the spec: [unwrap] and [unwrapErr] of the missing
    package abort on the wrong variant (4.1), as those of [result.ts] do. *)
Definition unwrap {T E : Type} : ResultTs.Result T E -> M T := ResultTs.unwrap.
Definition unwrapErr {T E : Type} : ResultTs.Result T E -> M E := ResultTs.unwrapErr.
Definition map {T E U : Type}
  : ResultTs.Result T E -> (T -> M U) -> M (ResultTs.Result U E) := ResultTs.map.
Definition Some_ : Value -> M Value := OptionTs.Some_.
Definition None_ : Value := OptionTs.None_.

End Oxido.

Module ModTs.
Import JsDate ResultTs Interface Oxido.

Definition createErr (message : string) (input : Value) : M (Result Value ParseError) :=
  Err {| path := []; message := message; input := input |}.

Definition isPlainObject (input : Value) : bool :=
  if (String.eqb (typeof input) "undefined"
      || match input with VNull => true | _ => false end)%bool
  then false
  else match getPrototypeOf input with
       | Some NullPrototype => true
       | Some ObjectPrototype => true
       | _ => false
       end.

(** [err.path.unshift(segment)] on the error [unwrapErr] handed out. *)
Definition unshift (err : ParseError) (segment : string) : ParseError :=
  {| path := segment :: path err; message := message err; input := input err |}.

Definition string : Schema := {|
  type := "string";
  parse := fun input =>
    if String.eqb (typeof input) "string" then Ok input
    else createErr "Not a string" input;
  shape := None
|}.

Definition number : Schema := {|
  type := "number";
  parse := fun input =>
    if (String.eqb (typeof input) "number" && isFinite input)%bool
    then Ok input
    else createErr "Expecting finite number" input;
  shape := None
|}.

Definition boolean : Schema := {|
  type := "boolean";
  parse := fun input =>
    if String.eqb (typeof input) "boolean"
    then Ok input
    else createErr "Expecting boolean" input;
  shape := None
|}.

Definition date : Schema := {|
  type := "date";
  parse := fun input =>
    if instanceofDate input then
      time <- getTime input ;;
      if PrimFloat.is_finite time
      then Ok (VDate time)
      else createErr "Expecting valid date" input
    else createErr "Expecting valid date" input;
  shape := None
|}.

Fixpoint arrayLoop (schema : Schema) (i : nat) (rest : list Value) (arr : list Value)
  : M (Result Value ParseError) :=
  match rest with
  | [] => Ok (VArray arr)
  | element :: rest' =>
      result <- parse schema element ;;
      failed <- isErr result ;;
      if failed : bool then
        err <- unwrapErr result ;;
        Err (unshift err (toString i))
      else
        value <- unwrap result ;;
        arrayLoop schema (S i) rest' (arr ++ [value])
  end.

Definition array (schema : Schema) : Schema := {|
  type := "array<" ++ type schema ++ ">";
  parse := fun input =>
    match input with
    | VArray elements => arrayLoop schema 0 elements []
    | _ => createErr "Expecting array" input
    end;
  shape := None
|}.

Fixpoint objectLoop (shape : list (String.string * Schema)) (input : Value)
    (keys : list String.string) (obj : list (String.string * Value))
  : M (Result Value ParseError) :=
  match keys with
  | [] => Ok (VObject NullPrototype obj)
  | key :: keys' =>
      match lookup key shape with
      | None => throw "TypeError: Cannot read properties of undefined (reading 'parse')"
      | Some schema =>
          result <- parse schema (get input key) ;;
          failed <- isErr result ;;
          if failed : bool then
            err <- unwrapErr result ;;
            Err (unshift err key)
          else
            value <- unwrap result ;;
            objectLoop shape input keys' (assign obj key value)
      end
  end.

Definition object (shape : list (String.string * Schema)) : Schema := {|
  shape := Some shape;
  type := "object";
  parse := fun input =>
    if negb (isPlainObject input) then createErr "Expecting object" input
    else objectLoop shape input (forIn shape) []
|}.

Definition optional (schema : Schema) : Schema := {|
  shape := shape schema;
  type := "option<" ++ type schema ++ ">";
  parse := fun input =>
    if (String.eqb (typeof input) "undefined"
        || match input with VNull => true | _ => false end)%bool
    then Ok None_
    else result <- parse schema input ;; map result (fun value => Some_ value)
|}.

Definition defaulted (schema : Schema) (defaultValue : Value) : Schema := {|
  shape := shape schema;
  type := type schema;
  parse := fun input =>
    if (String.eqb (typeof input) "undefined"
        || match input with VNull => true | _ => false end)%bool
    then Ok defaultValue
    else parse schema input
|}.

Inductive built : Schema -> Prop :=
| built_string : built string
| built_number : built number
| built_boolean : built boolean
| built_date : built date
| built_array (schema : Schema) : built schema -> built (array schema)
| built_object (shape : list (String.string * Schema)) :
    (forall key schema, In (key, schema) shape -> built schema) ->
    built (object shape)
| built_optional (schema : Schema) : built schema -> built (optional schema)
| built_defaulted (schema : Schema) (defaultValue : Value) :
    built schema -> built (defaulted schema defaultValue).

End ModTs.

(* ================================================================== *)
(** ** option.ts and result.ts: the other combinators *)
(* ================================================================== *)

(** [Option<T>] as the two-variant sum it is.  The values [Some_] and
    [None_] of [OptionTs] above are these options seen as JavaScript
    objects ([asValue]).  The record of calls keeps to the functions listed
    in [Call]; the combinators below enter it through those they call. *)
Module OptionSum.
Import UtilTs.

Inductive Option (T : Type) : Type :=
| OptSome (value : T)                 (* { some: true, value } *)
| OptNone.                            (* { some: false } *)
Arguments OptSome {T} value.
Arguments OptNone {T}.

Definition Some_ {T : Type} (value : T) : M (Option T) :=
  enter CallSome ;; ret (OptSome value).

Definition None_ {T : Type} : Option T := OptNone.

Definition from (value : Value) : M (Option Value) :=
  enter CallFrom ;;
  if isNil value then ret None_ else Some_ value.

(** The field [option.some]. *)
Definition some {T : Type} (option : Option T) : bool :=
  match option with OptSome _ => true | OptNone => false end.

Definition isSome {T : Type} (option : Option T) : bool := some option.

Definition isNone {T : Type} (option : Option T) : bool := negb (some option).

(** The object an option is. *)
Definition asValue (option : Option Value) : Value :=
  match option with
  | OptSome value => VObject ObjectPrototype [("some", VBoolean true); ("value", value)]
  | OptNone => VObject ObjectPrototype [("some", VBoolean false)]
  end.

End OptionSum.

(** The functions of [result.ts] the schema modules do not reach. *)
Module ResultRest.
Import UtilTs ResultTs OptionSum.

(** [isOk(result) && fn(result.value)]: on an [Err] the answer is the
    false left operand. *)
Definition isOkAnd {T E : Type} (result : Result T E) (fn : T -> M bool) : M bool :=
  okay <- isOk result ;;
  match result with
  | ResOk value => fn value
  | ResErr _ => ret okay
  end.

Definition isErrAnd {T E : Type} (result : Result T E) (fn : E -> M bool) : M bool :=
  failed <- isErr result ;;
  match result with
  | ResOk _ => ret failed
  | ResErr error => fn error
  end.

Definition and {T E U : Type} (result : Result T E) (other : Result U E)
  : M (Result U E) :=
  match_ result (fun _ => ret other) (fun error => ret (ResErr error)).

Definition andThen {T E U : Type} (result : Result T E) (fn : T -> M (Result U E))
  : M (Result U E) :=
  match_ result fn (fun error => ret (ResErr error)).

Definition toErr {T : Type} (result : Result T Value) : M (Option Value) :=
  match_ result
    (fun _ => ret None_)
    (fun error => if isPresent error then Some_ error else ret None_).

Definition mapErr {T E F : Type} (result : Result T E) (fn : E -> M F)
  : M (Result T F) :=
  match_ result
    (fun value => ret (ResOk value))
    (fun error => f <- fn error ;; Err f).

Definition mapOr {T E U : Type} (result : Result T E) (defaultValue : U)
    (fn : T -> M U) : M U :=
  match_ result fn (fun _ => ret defaultValue).

Definition mapOrElse {T E U : Type} (result : Result T E) (fallback : E -> M U)
    (fn : T -> M U) : M U :=
  match_ result fn fallback.

Definition or {T E F : Type} (result : Result T E) (other : Result T F)
  : M (Result T F) :=
  match_ result (fun value => ret (ResOk value)) (fun _ => ret other).

Definition orElse {T E F : Type} (result : Result T E) (fn : E -> M (Result T F))
  : M (Result T F) :=
  match_ result (fun value => ret (ResOk value)) fn.

Definition unwrapOr {T E : Type} (result : Result T E) (defaultValue : T) : M T :=
  match_ result (fun value => ret (identity value)) (fun _ => ret defaultValue).

Definition unwrapOrElse {T E : Type} (result : Result T E) (fn : E -> M T) : M T :=
  match_ result (fun value => ret (identity value)) fn.

End ResultRest.

(** The functions of [option.ts] beyond [Some], [None] and [from]. *)
Module OptionRest.
Import UtilTs ResultTs OptionSum.

(** [isSome(option) && fn(option.value)] *)
Definition isSomeAnd {T : Type} (option : Option T) (fn : T -> M bool) : M bool :=
  match option with
  | OptSome value => fn value
  | OptNone => ret (isSome option)
  end.

(** [isSome(option) ? onSome(option.value) : onNone()] *)
Definition match_ {T U : Type} (option : Option T)
    (onSome : T -> M U) (onNone : unit -> M U) : M U :=
  match option with
  | OptSome value => onSome value
  | OptNone => onNone tt
  end.

Definition and {T U : Type} (option : Option T) (other : Option U) : M (Option U) :=
  match_ option (fun _ => ret other) (fun _ => ret OptNone).

Definition andThen {T U : Type} (option : Option T) (fn : T -> M (Option U))
  : M (Option U) :=
  match_ option fn (fun _ => ret OptNone).

Definition expect {T : Type} (option : Option T) (message : string) : M T :=
  match_ option (fun value => ret (identity value)) (fun _ => raise message).

(** [(isSome(option) && fn(option.value)) ? option : None] *)
Definition filter {T : Type} (option : Option T) (fn : T -> M bool) : M (Option T) :=
  keep <- isSomeAnd option fn ;;
  ret (if keep : bool then option else None_).

Definition map {T U : Type} (option : Option T) (fn : T -> M U) : M (Option U) :=
  match_ option (fun value => u <- fn value ;; Some_ u) (fun _ => ret OptNone).

Definition mapOr {T U : Type} (option : Option T) (defaultValue : U) (fn : T -> M U)
  : M U :=
  match_ option fn (fun _ => ret defaultValue).

Definition mapOrElse {T U : Type} (option : Option T) (fallback : unit -> M U)
    (fn : T -> M U) : M U :=
  match_ option fn fallback.

Definition toOk {T E : Type} (option : Option T) (err : E) : M (Result T E) :=
  match_ option (fun value => Ok value) (fun _ => Err err).

Definition okOrElse {T E : Type} (option : Option T) (fn : unit -> M E)
  : M (Result T E) :=
  match_ option (fun value => Ok value) (fun _ => e <- fn tt ;; Err e).

Definition or {T : Type} (option other : Option T) : M (Option T) :=
  match_ option (fun _ => ret option) (fun _ => ret other).

Definition orElse {T : Type} (option : Option T) (fn : unit -> M (Option T))
  : M (Option T) :=
  match_ option (fun _ => ret option) fn.

Definition unwrap {T : Type} (option : Option T) : M T :=
  match_ option
    (fun value => ret (identity value))
    (fun _ => raise "called `Option.unwrap` on an `Err` value").

Definition unwrapOr {T : Type} (option : Option T) (defaultValue : T) : M T :=
  match_ option (fun value => ret (identity value)) (fun _ => ret defaultValue).

Definition unwrapOrElse {T : Type} (option : Option T) (fallback : unit -> M T) : M T :=
  match_ option (fun value => ret (identity value)) fallback.

Definition xor {T : Type} (left right : Option T) : Option T :=
  if (isSome left && isNone right)%bool then left
  else if (isNone left && isSome right)%bool then right
  else None_.

End OptionRest.

(* ================================================================== *)
(** ** Vocabulary of the properties *)
(* ================================================================== *)

(** The object literal [{ k1: v1, ... }]. *)
Definition literal (properties : list (string * Value)) : Value :=
  VObject ObjectPrototype properties.

(** The present-option value [{ some: true, value }]. *)
Definition present (value : Value) : Value :=
  VObject ObjectPrototype [("some", VBoolean true); ("value", value)].

(** A schema written by hand whose validator throws on every input. *)
Definition throwing : Interface.Schema := {|
  Interface.type := "throwing";
  Interface.parse := fun _ => throw "validator invoked";
  Interface.shape := None
|}.

(** A schema written by hand that answers every input with [Ok(null)]. *)
Definition nullAnswering : Interface.Schema := {|
  Interface.type := "null";
  Interface.parse := fun _ => ResultTs.Ok VNull;
  Interface.shape := None
|}.






(** The schemas made of [string()], [number()], [boolean()], [array] and
    [object] alone. *)
Inductive structural : Interface.Schema -> Prop :=
| structural_string : structural SchemaTs.string
| structural_number : structural SchemaTs.number
| structural_boolean : structural SchemaTs.boolean
| structural_array (schema : Interface.Schema) :
    structural schema -> structural (SchemaTs.array schema)
| structural_object (shape : list (string * Interface.Schema)) :
    (forall key schema, In (key, schema) shape -> structural schema) ->
    structural (SchemaTs.object shape).

(** The message [mod.ts] gives where [schema.ts] gives [message]. *)
Definition modMessage (message : string) : string :=
  if String.eqb message "Expecting string" then "Not a string"
  else if String.eqb message "Expecting number" then "Expecting finite number"
  else message.

(** An outcome with the message of its error, if it is one, rewritten. *)
Definition relabel (g : string -> string)
    (o : Outcome (ResultTs.Result Value Interface.ParseError))
  : Outcome (ResultTs.Result Value Interface.ParseError) :=
  match o with
  | Returned (ResultTs.ResErr error) =>
      Returned (ResultTs.ResErr
                  {| Interface.path := Interface.path error;
                     Interface.message := g (Interface.message error);
                     Interface.input := Interface.input error |})
  | other => other
  end.

(** The validator of [m] answers every input as that of [s] does, with
    the messages rewritten by [g]. *)
Definition answersAs (g : string -> string) (s m : Interface.Schema) : Prop :=
  forall value,
    outcome (Interface.parse m value) = relabel g (outcome (Interface.parse s value)).

(** The fields of two object shapes written alike in the two modules:
    name, child in [schema.ts], child in [mod.ts]. *)
Definition schemaShape (fields : list (string * Interface.Schema * Interface.Schema))
  : list (string * Interface.Schema) :=
  List.map (fun field => (fst (fst field), snd (fst field))) fields.

Definition modShape (fields : list (string * Interface.Schema * Interface.Schema))
  : list (string * Interface.Schema) :=
  List.map (fun field => (fst (fst field), snd field)) fields.

(** A schema of [schema.ts] and the schema of [mod.ts] built by the same
    constructor calls. *)
Inductive twin : Interface.Schema -> Interface.Schema -> Prop :=
| twin_string : twin SchemaTs.string ModTs.string
| twin_number : twin SchemaTs.number ModTs.number
| twin_boolean : twin SchemaTs.boolean ModTs.boolean
| twin_date : twin SchemaTs.date ModTs.date
| twin_array (s m : Interface.Schema) :
    twin s m -> twin (SchemaTs.array s) (ModTs.array m)
| twin_object (fields : list (string * Interface.Schema * Interface.Schema)) :
    (forall key s m, In (key, s, m) fields -> twin s m) ->
    twin (SchemaTs.object (schemaShape fields)) (ModTs.object (modShape fields))
| twin_optional (s m : Interface.Schema) :
    twin s m -> twin (SchemaTs.optional s) (ModTs.optional m)
| twin_defaulted (s m : Interface.Schema) (defaultValue : Value) :
    twin s m ->
    twin (SchemaTs.defaulted s defaultValue) (ModTs.defaulted m defaultValue).

(** The element of an array a path segment names: the one whose index
    prints as the segment.  [i] is the index of the first element of
    [elements]. *)
Fixpoint elementAt (elements : list Value) (i : nat) (segment : string) : option Value :=
  match elements with
  | [] => None
  | element :: rest =>
      if String.eqb (toString i) segment then Some element
      else elementAt rest (S i) segment
  end.

(** One step into a value along a path segment: into an array by index,
    into an object by the read [value[segment]]. *)
Definition stepInto (value : Value) (segment : string) : option Value :=
  match value with
  | VArray elements => elementAt elements 0 segment
  | VObject _ _ => Some (get value segment)
  | _ => None
  end.

(** The sub-value a path leads to, from the root. *)
Fixpoint follow (value : Value) (path : list string) : option Value :=
  match path with
  | [] => Some value
  | segment :: rest =>
      match stepInto value segment with
      | Some inner => follow inner rest
      | None => None
      end
  end.

(** The messages of [schema.ts], and those of [mod.ts]. *)
Definition schemaMessages : list string :=
  ["Expecting string"; "Expecting number"; "Expecting boolean";
   "Expecting valid date"; "Expecting array"; "Expecting object"].

Definition modMessages : list string :=
  ["Not a string"; "Expecting finite number"; "Expecting boolean";
   "Expecting valid date"; "Expecting array"; "Expecting object"].


(* ================================================================== *)
(** ** Facts about property keys and enumeration order *)
(* ================================================================== *)

Module KeyFacts.

Lemma lookup_In {A : Type} (key : string) (object : list (string * A)) (a : A) :
  lookup key object = Some a -> In (key, a) object.
Proof.
  induction object as [|[k v] later IH]; simpl; [discriminate|].
  destruct (lookup key later) as [v'|] eqn:Hlater.
  - intros [= <-]. right. now apply IH.
  - destruct (String.eqb k key) eqn:Hk; [|discriminate].
    apply String.eqb_eq in Hk. intros [= <-]. left. now subst.
Qed.


Lemma lookup_undeclared {A : Type} (key : string) (object : list (string * A)) :
  ~ In key (map fst object) -> lookup key object = None.
Proof.
  induction object as [|[k v] later IH]; simpl; [easy|].
  intros Hnot. rewrite IH by tauto.
  destruct (String.eqb k key) eqn:Hk; [|easy].
  apply String.eqb_eq in Hk. tauto.
Qed.

Lemma arrayIndex_key (key : string) (n : N) :
  arrayIndex key = Some n -> indexKey n = key.
Proof.
  unfold arrayIndex, indexKey.
  destruct (NilZero.uint_of_string key) as [d|]; [|discriminate].
  destruct (String.eqb _ key) eqn:E; simpl; [|discriminate].
  apply String.eqb_eq in E.
  destruct (N.leb _ _); [|discriminate].
  now intros [= <-].
Qed.

Lemma insertIndex_In (n m : N) (sorted : list N) :
  In m (insertIndex n sorted) <-> m = n \/ In m sorted.
Proof.
  induction sorted as [|x rest IH]; simpl.
  - intuition.
  - destruct (N.ltb n x); [simpl; intuition|].
    destruct (N.eqb n x) eqn:E.
    + apply N.eqb_eq in E. subst. simpl. intuition.
    + simpl. rewrite IH. intuition.
Qed.

Lemma indices_In (keys : list string) (n : N) :
  In n (indices keys) <-> exists key, In key keys /\ arrayIndex key = Some n.
Proof.
  induction keys as [|key rest IH]; simpl.
  - split; [tauto | now intros (? & [] & _)].
  - destruct (arrayIndex key) as [m|] eqn:E.
    + rewrite insertIndex_In, IH. split.
      * intros [-> | (k & Hk & Hn)]; [exists key; auto | exists k; auto].
      * intros (k & [<- | Hk] & Hn); [left; congruence | right; eauto].
    + rewrite IH. split.
      * intros (k & Hk & Hn). eauto.
      * intros (k & [<- | Hk] & Hn); [congruence | eauto].
Qed.

(** Strictly ascending. *)
Fixpoint ascending (l : list N) : Prop :=
  match l with
  | [] => True
  | n :: rest => (forall m, In m rest -> (n < m)%N) /\ ascending rest
  end.

Lemma insertIndex_ascending (n : N) (sorted : list N) :
  ascending sorted -> ascending (insertIndex n sorted).
Proof.
  induction sorted as [|x rest IH]; simpl; [intuition|].
  intros [Hx Hrest].
  destruct (N.ltb n x) eqn:Hlt.
  - apply N.ltb_lt in Hlt. simpl. split; [|auto].
    intros m [<- | Hm]; [assumption|]. specialize (Hx m Hm). lia.
  - destruct (N.eqb n x) eqn:Heq; [simpl; auto|].
    apply N.ltb_ge in Hlt. apply N.eqb_neq in Heq.
    simpl. split; [|auto].
    intros m Hm. apply insertIndex_In in Hm. destruct Hm as [-> | Hm]; [lia | auto].
Qed.

Lemma indices_ascending (keys : list string) : ascending (indices keys).
Proof.
  induction keys as [|key rest IH]; simpl; [exact I|].
  destruct (arrayIndex key); [now apply insertIndex_ascending | assumption].
Qed.

Lemma ascending_NoDup (l : list N) : ascending l -> NoDup l.
Proof.
  induction l as [|n rest IH]; simpl; [constructor|].
  intros [Hn Hrest]. constructor; [|auto].
  intros Hin. specialize (Hn n Hin). lia.
Qed.

Lemma distinct_In (keys : list string) (k : string) :
  In k (distinct keys) <-> In k keys.
Proof.
  induction keys as [|key rest IH]; simpl; [tauto|].
  rewrite filter_In, IH.
  destruct (String.eqb k key) eqn:E.
  - apply String.eqb_eq in E. subst. simpl. intuition discriminate.
  - apply String.eqb_neq in E. simpl. intuition congruence.
Qed.

Lemma distinct_NoDup (keys : list string) : NoDup (distinct keys).
Proof.
  induction keys as [|key rest IH]; simpl; [constructor|].
  constructor.
  - rewrite filter_In. intros [_ H]. now rewrite String.eqb_refl in H.
  - now apply NoDup_filter.
Qed.

Lemma distinct_NoDup_id (keys : list string) : NoDup keys -> distinct keys = keys.
Proof.
  induction keys as [|key rest IH]; simpl; [reflexivity|].
  intros Hnd. inversion Hnd as [|? ? Hnot Hrest]; subst.
  rewrite IH by assumption. f_equal.
  apply forallb_filter_id, forallb_forall.
  intros k Hk. destruct (String.eqb k key) eqn:E; [|reflexivity].
  apply String.eqb_eq in E. now subst.
Qed.

Lemma indexKeys_In (keys : list string) (k : string) :
  In k (map indexKey (indices keys)) <-> In k keys /\ isArrayIndex k = true.
Proof.
  rewrite in_map_iff. split.
  - intros (n & <- & Hn). apply indices_In in Hn. destruct Hn as (key & Hkey & Hidx).
    pose proof (arrayIndex_key _ _ Hidx) as ->.
    split; [assumption|]. unfold isArrayIndex. now rewrite Hidx.
  - intros [Hk Hidx]. unfold isArrayIndex in Hidx.
    destruct (arrayIndex k) as [n|] eqn:E; [|discriminate].
    exists n. split; [now apply arrayIndex_key|].
    apply indices_In. eauto.
Qed.

Lemma indexKeys_NoDup (keys : list string) : NoDup (map indexKey (indices keys)).
Proof.
  assert (Hinj : forall n m, In n (indices keys) -> In m (indices keys) ->
                             indexKey n = indexKey m -> n = m).
  { intros n m Hn Hm Heq.
    apply indices_In in Hn. destruct Hn as (kn & _ & Hkn).
    apply indices_In in Hm. destruct Hm as (km & _ & Hkm).
    pose proof (arrayIndex_key _ _ Hkn). pose proof (arrayIndex_key _ _ Hkm).
    congruence. }
  pose proof (ascending_NoDup _ (indices_ascending keys)) as Hnd.
  induction (indices keys) as [|n rest IH]; simpl; [constructor|].
  inversion Hnd as [|? ? Hnot Hrest]; subst.
  constructor.
  - rewrite in_map_iff. intros (m & Heq & Hm).
    assert (m = n) by (apply Hinj; simpl; auto). now subst.
  - apply IH; [|assumption].
    intros a b Ha Hb. apply Hinj; simpl; auto.
Qed.

(** [for ... in] visits exactly the declared keys. *)
Lemma forIn_In {A : Type} (object : list (string * A)) (k : string) :
  In k (forIn object) <-> In k (map fst object).
Proof.
  unfold forIn. rewrite in_app_iff, indexKeys_In, distinct_In, filter_In.
  destruct (isArrayIndex k); simpl; intuition discriminate.
Qed.

(** and each of them once. *)
Lemma forIn_NoDup {A : Type} (object : list (string * A)) : NoDup (forIn object).
Proof.
  unfold forIn. apply NoDup_app.
  - apply indexKeys_NoDup.
  - apply distinct_NoDup.
  - intros k Hidx Hother.
    apply indexKeys_In in Hidx. apply distinct_In, filter_In in Hother.
    destruct Hidx as [_ Hidx], Hother as [_ Hother].
    rewrite Hidx in Hother. discriminate.
Qed.


Lemma indices_none (keys : list string) :
  (forall k, In k keys -> isArrayIndex k = false) -> indices keys = [].
Proof.
  induction keys as [|key rest IH]; simpl; [reflexivity|].
  intros Hno. pose proof (Hno key (or_introl eq_refl)) as Hkey.
  unfold isArrayIndex in Hkey. destruct (arrayIndex key); [discriminate|].
  apply IH. intros k Hk. apply Hno. now right.
Qed.

(** Without array indices and repeated names, the order is the declared
    one. *)
Lemma forIn_declared {A : Type} (object : list (string * A)) :
  (forall k, In k (map fst object) -> isArrayIndex k = false) ->
  NoDup (map fst object) ->
  forIn object = map fst object.
Proof.
  intros Hno Hnd. unfold forIn.
  rewrite indices_none by assumption. simpl.
  rewrite forallb_filter_id.
  - now apply distinct_NoDup_id.
  - apply forallb_forall. intros k Hk. now rewrite Hno.
Qed.

End KeyFacts.

(* ================================================================== *)
(** ** Facts about evaluation *)
(* ================================================================== *)

Module EvalFacts.

Lemma outcome_bind {A B : Type} (m : M A) (f : A -> M B) :
  outcome (bind m f) =
  match outcome m with
  | Returned a => outcome (f a)
  | Thrown message => Thrown message
  end.
Proof.
  destruct m as [before [a|message]]; simpl; [|reflexivity].
  now destruct (f a).
Qed.




Lemma bind_ext {A B : Type} (m : M A) (f g : A -> M B) :
  (forall a, outcome m = Returned a -> f a = g a) -> bind m f = bind m g.
Proof.
  destruct m as [before [a|message]]; simpl; [|reflexivity].
  intros H. now rewrite (H a eq_refl).
Qed.

End EvalFacts.

(* ================================================================== *)
(** ** Facts about the two loops of schema.ts *)
(* ================================================================== *)

Module LoopFacts.
Import ResultTs Interface SchemaTs EvalFacts KeyFacts.

Lemma arrayLoop_nil (schema : Schema) (i : nat) (arr : list Value) :
  outcome (arrayLoop schema i [] arr) = Returned (ResOk (VArray arr)).
Proof. reflexivity. Qed.

Lemma arrayLoop_cons (schema : Schema) (i : nat) (element : Value)
    (rest arr : list Value) :
  outcome (arrayLoop schema i (element :: rest) arr) =
  match outcome (parse schema element) with
  | Returned (ResOk value) => outcome (arrayLoop schema (S i) rest (arr ++ [value]))
  | Returned (ResErr error) => Returned (ResErr (unshift error (toString i)))
  | Thrown message => Thrown message
  end.
Proof.
  cbn [arrayLoop]. rewrite outcome_bind.
  destruct (outcome (parse schema element)) as [[value|error]|message];
    try reflexivity; now rewrite outcome_bind.
Qed.

Lemma objectLoop_nil (shape : list (String.string * Schema)) (input : Value)
    (obj : list (String.string * Value)) :
  outcome (objectLoop shape input [] obj) = Returned (ResOk (VObject NullPrototype obj)).
Proof. reflexivity. Qed.

Lemma objectLoop_cons (shape : list (String.string * Schema)) (input : Value)
    (key : String.string) (keys : list String.string) (obj : list (String.string * Value)) :
  outcome (objectLoop shape input (key :: keys) obj) =
  match lookup key shape with
  | None => Thrown "TypeError: Cannot read properties of undefined (reading 'parse')"
  | Some schema =>
      match outcome (parse schema (get input key)) with
      | Returned (ResOk value) =>
          outcome (objectLoop shape input keys (assign obj key value))
      | Returned (ResErr error) => Returned (ResErr (unshift error key))
      | Thrown message => Thrown message
      end
  end.
Proof.
  cbn [objectLoop]. destruct (lookup key shape) as [schema|]; [|reflexivity].
  rewrite outcome_bind.
  destruct (outcome (parse schema (get input key))) as [[value|error]|message];
    try reflexivity; now rewrite outcome_bind.
Qed.

(** A failing array loop failed at one element, and added that element's
    index to the child's error. *)
Lemma arrayLoop_failed (schema : Schema) (rest : list Value) :
  forall (i : nat) (arr : list Value) (err : ParseError),
  outcome (arrayLoop schema i rest arr) = Returned (ResErr err) ->
  exists (j : nat) (element : Value) (child : ParseError),
    nth_error rest j = Some element /\
    (forall k x, k < j -> nth_error rest k = Some x ->
                 exists v, outcome (parse schema x) = Returned (ResOk v)) /\
    outcome (parse schema element) = Returned (ResErr child) /\
    err = unshift child (toString (i + j)).
Proof.
  induction rest as [|element rest IH]; intros i arr err.
  - rewrite arrayLoop_nil. discriminate.
  - rewrite arrayLoop_cons.
    destruct (outcome (parse schema element)) as [[value|error]|message] eqn:Hchild;
      [|intros [= <-]|discriminate].
    + intros Hrest. apply IH in Hrest.
      destruct Hrest as (j & x & child & Hnth & Hbefore & Hfail & ->).
      exists (S j), x, child. repeat split; try assumption.
      * intros [|k] y Hlt Hy; simpl in Hy.
        -- injection Hy as <-. now exists value.
        -- apply (Hbefore k); [lia | assumption].
      * f_equal. f_equal. lia.
    + exists 0, element, error. repeat split; try assumption.
      * intros k x Hlt. lia.
      * now rewrite Nat.add_0_r.
Qed.

(** The first failing element decides the loop, whatever follows it. *)
Lemma arrayLoop_first_failure (schema : Schema) (before : list Value) :
  forall (i : nat) (arr : list Value) (element : Value) (after : list Value)
         (child : ParseError),
  (forall x, In x before -> exists v, outcome (parse schema x) = Returned (ResOk v)) ->
  outcome (parse schema element) = Returned (ResErr child) ->
  outcome (arrayLoop schema i (before ++ element :: after) arr) =
  Returned (ResErr (unshift child (toString (i + List.length before)))).
Proof.
  induction before as [|x before IH]; intros i arr element after child Hbefore Hfail; simpl app.
  - rewrite arrayLoop_cons, Hfail. simpl. now rewrite Nat.add_0_r.
  - rewrite arrayLoop_cons.
    destruct (Hbefore x (or_introl eq_refl)) as [v ->].
    rewrite (IH (S i) _ element after child); [|intros; apply Hbefore; now right|assumption].
    simpl. do 4 f_equal. lia.
Qed.

(** A succeeding array loop validated every element and collected the
    children's values in order. *)
Lemma arrayLoop_succeeded (schema : Schema) (rest : list Value) :
  forall (i : nat) (arr : list Value) (out : Value),
  outcome (arrayLoop schema i rest arr) = Returned (ResOk out) ->
  exists values,
    out = VArray (arr ++ values) /\
    Forall2 (fun x v => outcome (parse schema x) = Returned (ResOk v)) rest values.
Proof.
  induction rest as [|element rest IH]; intros i arr out.
  - rewrite arrayLoop_nil. intros [= <-]. exists []. now rewrite app_nil_r.
  - rewrite arrayLoop_cons.
    destruct (outcome (parse schema element)) as [[value|error]|message] eqn:Hchild;
      [|discriminate|discriminate].
    intros Hrest. apply IH in Hrest. destruct Hrest as (values & -> & Hall).
    exists (value :: values). split; [now rewrite <- app_assoc | now constructor].
Qed.

Lemma arrayLoop_all_ok (schema : Schema) (rest values : list Value) :
  Forall2 (fun x v => outcome (parse schema x) = Returned (ResOk v)) rest values ->
  forall (i : nat) (arr : list Value),
  outcome (arrayLoop schema i rest arr) = Returned (ResOk (VArray (arr ++ values))).
Proof.
  induction 1 as [|x v rest values Hx Hrest IH]; intros i arr.
  - now rewrite arrayLoop_nil, app_nil_r.
  - rewrite arrayLoop_cons, Hx, IH, <- app_assoc. reflexivity.
Qed.

(** The same four facts for the object loop. *)
Lemma objectLoop_failed (shape : list (String.string * Schema)) (input : Value)
    (keys : list String.string) :
  forall (obj : list (String.string * Value)) (err : ParseError),
  outcome (objectLoop shape input keys obj) = Returned (ResErr err) ->
  exists (key : String.string) (schema : Schema) (child : ParseError),
    In key keys /\
    lookup key shape = Some schema /\
    outcome (parse schema (get input key)) = Returned (ResErr child) /\
    err = unshift child key.
Proof.
  induction keys as [|key keys IH]; intros obj err.
  - rewrite objectLoop_nil. discriminate.
  - rewrite objectLoop_cons.
    destruct (lookup key shape) as [schema|] eqn:Hschema; [|discriminate].
    destruct (outcome (parse schema (get input key))) as [[value|error]|message] eqn:Hchild;
      [|intros [= <-]|discriminate].
    + intros Hrest. apply IH in Hrest.
      destruct Hrest as (k & s & child & Hin & Hs & Hfail & ->).
      exists k, s, child. repeat split; try assumption. now right.
    + exists key, schema, error. repeat split; try assumption. now left.
Qed.

Lemma objectLoop_first_failure (shape : list (String.string * Schema)) (input : Value)
    (before : list String.string) :
  forall (obj : list (String.string * Value)) (key : String.string) (after : list String.string)
         (schema : Schema) (child : ParseError),
  (forall k, In k before ->
     exists s v, lookup k shape = Some s /\
                 outcome (parse s (get input k)) = Returned (ResOk v)) ->
  lookup key shape = Some schema ->
  outcome (parse schema (get input key)) = Returned (ResErr child) ->
  outcome (objectLoop shape input (before ++ key :: after) obj) =
  Returned (ResErr (unshift child key)).
Proof.
  induction before as [|k before IH]; intros obj key after schema child Hbefore Hschema Hfail;
    simpl app.
  - now rewrite objectLoop_cons, Hschema, Hfail.
  - rewrite objectLoop_cons.
    destruct (Hbefore k (or_introl eq_refl)) as (s & v & -> & ->).
    apply IH with (schema := schema); [intros; apply Hbefore; now right | assumption..].
Qed.

Lemma objectLoop_succeeded (shape : list (String.string * Schema)) (input : Value)
    (keys : list String.string) :
  forall (obj : list (String.string * Value)) (out : Value),
  outcome (objectLoop shape input keys obj) = Returned (ResOk out) ->
  exists values,
    out = VObject NullPrototype (obj ++ combine keys values) /\
    Forall2 (fun key v => exists schema,
               lookup key shape = Some schema /\
               outcome (parse schema (get input key)) = Returned (ResOk v))
            keys values.
Proof.
  induction keys as [|key keys IH]; intros obj out.
  - rewrite objectLoop_nil. intros [= <-]. exists []. now rewrite app_nil_r.
  - rewrite objectLoop_cons.
    destruct (lookup key shape) as [schema|] eqn:Hschema; [|discriminate].
    destruct (outcome (parse schema (get input key))) as [[value|error]|message] eqn:Hchild;
      [|discriminate|discriminate].
    intros Hrest. apply IH in Hrest. destruct Hrest as (values & -> & Hall).
    exists (value :: values). split.
    + unfold assign. now rewrite <- app_assoc.
    + constructor; [now exists schema | assumption].
Qed.

Lemma objectLoop_all_ok (shape : list (String.string * Schema)) (input : Value)
    (keys : list String.string) (values : list Value) :
  Forall2 (fun key v => exists schema,
             lookup key shape = Some schema /\
             outcome (parse schema (get input key)) = Returned (ResOk v))
          keys values ->
  forall obj : list (String.string * Value),
  outcome (objectLoop shape input keys obj) =
  Returned (ResOk (VObject NullPrototype (obj ++ combine keys values))).
Proof.
  induction 1 as [|key v keys values (schema & Hschema & Hkey) Hrest IH]; intros obj.
  - now rewrite objectLoop_nil, app_nil_r.
  - rewrite objectLoop_cons, Hschema, Hkey, IH. unfold assign.
    now rewrite <- app_assoc.
Qed.

(** Past the first failing field the loop does nothing: the computation,
    calls included, is the one over the keys up to that field. *)
Lemma objectLoop_stops (shape : list (String.string * Schema)) (input : Value)
    (before : list String.string) :
  forall (obj : list (String.string * Value)) (key : String.string)
         (after : list String.string) (schema : Schema) (child : ParseError),
  (forall k, In k before ->
     exists s v, lookup k shape = Some s /\
                 outcome (parse s (get input k)) = Returned (ResOk v)) ->
  lookup key shape = Some schema ->
  outcome (parse schema (get input key)) = Returned (ResErr child) ->
  objectLoop shape input (before ++ key :: after) obj =
  objectLoop shape input (before ++ [key]) obj.
Proof.
  induction before as [|k before IH]; intros obj key after schema child Hbefore Hschema Hfail;
    cbn [app objectLoop].
  - rewrite Hschema. apply bind_ext. intros result Hresult.
    rewrite Hresult in Hfail. injection Hfail as ->. reflexivity.
  - destruct (Hbefore k (or_introl eq_refl)) as (s & v & -> & Hv).
    apply bind_ext. intros result Hresult.
    rewrite Hresult in Hv. injection Hv as ->.
    apply bind_ext. intros failed [= <-]. cbn [negb ok].
    apply IH with (schema := schema) (child := child);
      [intros; apply Hbefore; now right | assumption..].
Qed.

End LoopFacts.

(* ================================================================== *)
(** ** Facts about [date] *)
(* ================================================================== *)

Module DateFacts.
Import JsDate ResultTs Interface.

(** The outcome of [date()] on every value. *)
Lemma date_outcome (value : Value) :
  outcome (parse SchemaTs.date value) =
  match value with
  | VDate time =>
      if PrimFloat.is_finite time
      then Returned (ResOk (VDate time))
      else Returned (ResErr {| path := []; message := "Expecting valid date";
                               input := value |})
  | VObject DatePrototype own =>
      match lookup "getTime" own with
      | None => Thrown notADate
      | Some (VFunction name) => Thrown (opaqueCall name)
      | Some _ => Thrown notAFunction
      end
  | _ => Returned (ResErr {| path := []; message := "Expecting valid date";
                             input := value |})
  end.
Proof.
  destruct value as [| | | | |time| | |proto own]; try reflexivity.
  - cbn. now destruct (PrimFloat.is_finite time).
  - destruct proto; try reflexivity.
    cbn. now destruct (lookup "getTime" own) as [[]|].
Qed.

(** It accepts a date of finite time, rejects with its message, or
    throws. *)
Lemma date_answers (value : Value) :
  (exists time, value = VDate time /\ PrimFloat.is_finite time = true /\
                outcome (parse SchemaTs.date value) = Returned (ResOk (VDate time)))
  \/ outcome (parse SchemaTs.date value)
     = Returned (ResErr {| path := []; message := "Expecting valid date";
                           input := value |})
  \/ exists thrown, outcome (parse SchemaTs.date value) = Thrown thrown.
Proof.
  rewrite date_outcome.
  destruct value as [| | | | |time| | |proto own]; auto.
  - destruct (PrimFloat.is_finite time) eqn:Hfinite; [|auto].
    left. now exists time.
  - destruct proto; auto.
    right. right. destruct (lookup "getTime" own) as [[]|]; eauto.
Qed.

Lemma mod_date_same (value : Value) :
  parse ModTs.date value = parse SchemaTs.date value.
Proof. reflexivity. Qed.

End DateFacts.

(* ================================================================== *)
(** ** Properties of the engine *)
(* ================================================================== *)

Import UtilTs ResultTs OptionTs Interface EvalFacts KeyFacts LoopFacts.

(** *** Paths *)

(** C1.  Whenever [array(schema)] rejects an array, some element at index
    [i] was rejected by [schema], every element before it was accepted, and
    the error is the child's error with the one segment [i.toString()] put
    in front; whenever [object(shape)] rejects a plain object, the child of
    some field [key] rejected [input[key]] and the error is the child's with
    the one segment [key] in front.  Message and offending input are the
    child's.  On [{items: [{n: 1}, {n: "x"}]}] the schema
    [object({items: array(object({n: number()}))})] answers the path
    [["items"; "1"; "n"]] with the leaf's message and input. *)
Theorem C1_path_composition :
  (forall (schema : Schema) (elements : list Value) (err : ParseError),
     outcome (parse (SchemaTs.array schema) (VArray elements)) = Returned (ResErr err) ->
     exists (i : nat) (element : Value) (child : ParseError),
       nth_error elements i = Some element /\
       (forall k x, k < i -> nth_error elements k = Some x ->
                    exists v, outcome (parse schema x) = Returned (ResOk v)) /\
       outcome (parse schema element) = Returned (ResErr child) /\
       path err = toString i :: path child /\
       message err = message child /\
       input err = input child)
  /\
  (forall (shape : list (string * Schema)) (value : Value) (err : ParseError),
     isPlainObject value = true ->
     outcome (parse (SchemaTs.object shape) value) = Returned (ResErr err) ->
     exists (key : string) (schema : Schema) (child : ParseError),
       In key (List.map fst shape) /\
       lookup key shape = Some schema /\
       outcome (parse schema (get value key)) = Returned (ResErr child) /\
       path err = key :: path child /\
       message err = message child /\
       input err = input child)
  /\
  outcome
    (parse
       (SchemaTs.object
          [("items", SchemaTs.array (SchemaTs.object [("n", SchemaTs.number)]))])
       (literal [("items", VArray [literal [("n", VNumber 1)];
                                   literal [("n", VString "x")]])]))
  = Returned (ResErr {| path := ["items"; "1"; "n"];
                        message := "Expecting number";
                        input := VString "x" |}).
Proof.
  split; [|split].
  - intros schema elements err Herr. cbn [parse SchemaTs.array] in Herr.
    apply arrayLoop_failed in Herr.
    destruct Herr as (j & element & child & Hnth & Hbefore & Hfail & ->).
    exists j, element, child. repeat split; assumption.
  - intros shape value err Hplain Herr. cbn [parse SchemaTs.object] in Herr.
    rewrite Hplain in Herr. cbn [negb] in Herr.
    apply objectLoop_failed in Herr.
    destruct Herr as (key & schema & child & Hin & Hschema & Hfail & ->).
    exists key, schema, child. repeat split; try assumption.
    now apply forIn_In.
  - vm_compute. reflexivity.
Qed.

Lemma C1_path_composition_witness :
  exists (i : nat) (element : Value) (child : ParseError),
    nth_error [VNumber 1; VString "x"; VNumber 3] i = Some element /\
    (forall k x, k < i -> nth_error [VNumber 1; VString "x"; VNumber 3] k = Some x ->
                 exists v, outcome (parse SchemaTs.number x) = Returned (ResOk v)) /\
    outcome (parse SchemaTs.number element) = Returned (ResErr child) /\
    path {| path := ["1"]; message := "Expecting number"; input := VString "x" |}
      = toString i :: path child /\
    message {| path := ["1"]; message := "Expecting number"; input := VString "x" |}
      = message child /\
    input {| path := ["1"]; message := "Expecting number"; input := VString "x" |}
      = input child.
Proof.
  apply (proj1 C1_path_composition SchemaTs.number
           [VNumber 1; VString "x"; VNumber 3]).
  vm_compute. reflexivity.
Defined.

(** *** Field order and early exit *)

(** C2, as the code has it.  For a plain object, [object(shape)] visits the
    field names in [for ... in] order, each declared name once: array
    indices first, ascending, then the other names as declared; this is
    the declared order when the names are distinct and none is an array
    index.  The child of field [key] gets the read [input[key]], which is
    [undefined] when [key] is found neither on the input nor on its
    prototype.  At the first child that fails the validator returns that
    child's error with [key] put in front; the fields after it are not
    visited: neither outcome nor calls depend on them.  On
    [{a: "bad", b: 1}] the schema [object({a: number(), b: string()})]
    answers the path [["a"]]. *)
Theorem C2_first_failing_field :
  (forall (shape : list (string * Schema)) (value : Value)
          (before : list string) (key : string) (after : list string)
          (schema : Schema) (child : ParseError),
     isPlainObject value = true ->
     forIn shape = before ++ key :: after ->
     (forall k, In k before ->
        exists s v, lookup k shape = Some s /\
                    outcome (parse s (get value k)) = Returned (ResOk v)) ->
     lookup key shape = Some schema ->
     outcome (parse schema (get value key)) = Returned (ResErr child) ->
     outcome (parse (SchemaTs.object shape) value)
       = Returned (ResErr {| path := key :: path child;
                             message := message child;
                             input := input child |})
     /\ parse (SchemaTs.object shape) value
       = SchemaTs.objectLoop shape value (before ++ [key]) [])
  /\
  (forall (shape : list (string * Schema)),
     NoDup (forIn shape) /\
     forall k, In k (forIn shape) <-> In k (List.map fst shape))
  /\
  (forall (shape : list (string * Schema)),
     (forall k, In k (List.map fst shape) -> isArrayIndex k = false) ->
     NoDup (List.map fst shape) ->
     forIn shape = List.map fst shape)
  /\
  (forall (proto : Prototype) (own : list (string * Value)) (key : string),
     lookup key own = None ->
     inherited proto key = VUndefined ->
     get (VObject proto own) key = VUndefined)
  /\
  outcome
    (parse (SchemaTs.object [("a", SchemaTs.number); ("b", SchemaTs.string)])
           (literal [("a", VString "bad"); ("b", VNumber 1)]))
  = Returned (ResErr {| path := ["a"];
                        message := "Expecting number";
                        input := VString "bad" |})
  /\
  outcome
    (parse (SchemaTs.object [("a", SchemaTs.number); ("b", throwing)])
           (literal [("a", VString "bad"); ("b", VNumber 1)]))
  = Returned (ResErr {| path := ["a"];
                        message := "Expecting number";
                        input := VString "bad" |}).
Proof.
  split; [|split; [|split; [|split; [|split]]]].
  - intros shape value before key after schema child Hplain Horder Hbefore Hschema Hfail.
    cbn [parse SchemaTs.object]. rewrite Hplain, Horder. cbn [negb]. split.
    + now apply objectLoop_first_failure with (schema := schema).
    + now apply objectLoop_stops with (schema := schema) (child := child).
  - intros shape. split; [apply forIn_NoDup | intros k; apply forIn_In].
  - intros shape. apply forIn_declared.
  - intros proto own key Hown Hinherited. cbn [get]. now rewrite Hown.
  - vm_compute. reflexivity.
  - vm_compute. reflexivity.
Qed.

Lemma C2_first_failing_field_witness :
  outcome
    (parse (SchemaTs.object
              [("a", SchemaTs.number); ("b", SchemaTs.string); ("c", throwing)])
           (literal [("a", VNumber 1); ("b", VNumber 2)]))
  = Returned (ResErr {| path := ["b"];
                        message := "Expecting string";
                        input := VNumber 2 |})
  /\ parse (SchemaTs.object
              [("a", SchemaTs.number); ("b", SchemaTs.string); ("c", throwing)])
           (literal [("a", VNumber 1); ("b", VNumber 2)])
     = SchemaTs.objectLoop
         [("a", SchemaTs.number); ("b", SchemaTs.string); ("c", throwing)]
         (literal [("a", VNumber 1); ("b", VNumber 2)]) (["a"] ++ ["b"]) [].
Proof.
  apply (proj1 C2_first_failing_field
           [("a", SchemaTs.number); ("b", SchemaTs.string); ("c", throwing)]
           (literal [("a", VNumber 1); ("b", VNumber 2)])
           ["a"] "b" ["c"] SchemaTs.string
           {| path := []; message := "Expecting string"; input := VNumber 2 |}).
  - reflexivity.
  - vm_compute. reflexivity.
  - intros k [<- | []]. exists SchemaTs.number, (VNumber 1). split; reflexivity.
  - reflexivity.
  - reflexivity.
Defined.

(** C2 as stated fails twice.  With the fields declared as [b] then [1]
    and both invalid, the error names [1], not the first declared field
    [b]: [for ... in] visits array indices first.  And for the field
    [toString], missing on [{}], the child is not given [undefined] but the
    function [{}] inherits, so an optional string is rejected where an
    absent input would be accepted. *)
Lemma C2_declared_order_counterexample :
  outcome
    (parse (SchemaTs.object [("b", SchemaTs.number); ("1", SchemaTs.string)])
           (literal [("b", VString "bad"); ("1", VNumber 1)]))
  = Returned (ResErr {| path := ["1"];
                        message := "Expecting string";
                        input := VNumber 1 |})
  /\ outcome (parse SchemaTs.number
                    (get (literal [("b", VString "bad"); ("1", VNumber 1)]) "b"))
     = Returned (ResErr {| path := [];
                           message := "Expecting number";
                           input := VString "bad" |})
  /\ lookup "toString" (@nil (string * Value)) = None
  /\ get (literal []) "toString" = VFunction "toString"
  /\ outcome
       (parse (SchemaTs.object [("toString", SchemaTs.optional SchemaTs.string)])
              (literal []))
     = Returned (ResErr {| path := ["toString"];
                           message := "Expecting string";
                           input := VFunction "toString" |})
  /\ outcome (parse (SchemaTs.optional SchemaTs.string) VUndefined)
     = Returned (ResOk None_).
Proof. repeat split; vm_compute; reflexivity. Qed.

(** *** Totality and the calls into the container layer *)

Module SafetyFacts.
Import SchemaTs.




Section Permitted.

Variable permitted : Call -> bool.
Hypothesis permitted_Ok : permitted CallOk = true.
Hypothesis permitted_IsErr : permitted CallIsErr = true.



End Permitted.





End SafetyFacts.




(** *** The wrappers [optional] and [defaulted] *)

Module WrapperFacts.
Import SchemaTs.

(** What [optional] answers on a present input, for any child. *)
Lemma optional_present_outcome (schema : Schema) (value : Value) :
  isNil value = false ->
  outcome (parse (optional schema) value) =
  match outcome (parse schema value) with
  | Returned (ResOk v) => Returned (ResOk (if isNil v then None_ else present v))
  | Returned (ResErr error) => Returned (ResErr error)
  | Thrown message => Thrown message
  end.
Proof.
  intros Hpresent. cbn [parse optional]. rewrite Hpresent, outcome_bind.
  destruct (outcome (parse schema value)) as [[v|error]|message]; try reflexivity.
  unfold map, match_, from. now destruct (isNil v).
Qed.

(** A schema built from the constructors never answers a present input
    with an absent value. *)
Lemma built_value_present (schema : Schema) :
  built schema ->
  forall value v,
    isNil value = false ->
    outcome (parse schema value) = Returned (ResOk v) ->
    isNil v = false.
Proof.
  induction 1 as [| | | |schema _ IH|shape _ IH|schema _ IH|schema defaultValue _ IH];
    intros value v Hpresent.
  - cbn [parse string]. destruct (String.eqb _ _); [|discriminate].
    now intros [= <-].
  - cbn [parse number]. destruct (_ && _)%bool; [|discriminate].
    now intros [= <-].
  - cbn [parse boolean]. destruct (String.eqb _ _); [|discriminate].
    now intros [= <-].
  - destruct (DateFacts.date_answers value) as [(time & -> & _ & ->) | [-> | (thrown & ->)]];
      [now intros [= <-] | discriminate | discriminate].
  - cbn [parse array]. destruct value; try discriminate.
    intros Hloop. apply arrayLoop_succeeded in Hloop. now destruct Hloop as (values & -> & _).
  - cbn [parse object]. destruct (isPlainObject value); cbn [negb]; [|discriminate].
    intros Hloop. apply objectLoop_succeeded in Hloop. now destruct Hloop as (values & -> & _).
  - rewrite optional_present_outcome by assumption.
    destruct (outcome (parse schema value)) as [[w|error]|message]; try discriminate.
    intros [= <-]. now destruct (isNil w).
  - cbn [parse defaulted]. rewrite Hpresent. now apply IH.
Qed.

End WrapperFacts.

(** C4, as the code has it.  On an absent input [optional(schema)]
    answers [Ok(None)] having entered [Ok] and nothing else, whatever
    [schema] is: the child is not invoked.  On a present input it answers
    what the child answers, a failure with the child's error as it is, no
    segment added, and a success wrapped by [from]: as
    [{ some: true, value }] when the child's value is neither [null] nor
    [undefined], as [None] when it is.  A child built from the constructors
    never answers a present input with an absent value, so for such a
    child a success is always wrapped as [{ some: true, value }].
    [optional(number())] answers [undefined] with [Ok(None)], ["x"] with an
    error of empty path, and [5] with [Ok(Some(5))]. *)
Theorem C4_optional :
  (forall (schema : Schema) (value : Value),
     isNil value = true ->
     parse (SchemaTs.optional schema) value = ([CallOk], Returned (ResOk None_)))
  /\
  (forall (schema : Schema) (value : Value),
     isNil value = false ->
     outcome (parse (SchemaTs.optional schema) value) =
     match outcome (parse schema value) with
     | Returned (ResOk v) => Returned (ResOk (if isNil v then None_ else present v))
     | Returned (ResErr error) => Returned (ResErr error)
     | Thrown message => Thrown message
     end)
  /\
  (forall (schema : Schema) (value : Value),
     SchemaTs.built schema ->
     isNil value = false ->
     outcome (parse (SchemaTs.optional schema) value) =
     match outcome (parse schema value) with
     | Returned (ResOk v) => Returned (ResOk (present v))
     | Returned (ResErr error) => Returned (ResErr error)
     | Thrown message => Thrown message
     end)
  /\
  parse (SchemaTs.optional throwing) VNull = ([CallOk], Returned (ResOk None_))
  /\
  outcome (parse (SchemaTs.optional SchemaTs.number) VUndefined)
    = Returned (ResOk None_)
  /\
  outcome (parse (SchemaTs.optional SchemaTs.number) (VString "x"))
    = Returned (ResErr {| path := []; message := "Expecting number"; input := VString "x" |})
  /\
  outcome (parse (SchemaTs.optional SchemaTs.number) (VNumber 5))
    = Returned (ResOk (present (VNumber 5))).
Proof.
  split; [|split; [|split; [|repeat split; vm_compute; reflexivity]]].
  - intros schema value Habsent. cbn [parse SchemaTs.optional]. now rewrite Habsent.
  - intros schema value Hpresent.
    now apply WrapperFacts.optional_present_outcome.
  - intros schema value Hbuilt Hpresent.
    rewrite WrapperFacts.optional_present_outcome by assumption.
    destruct (outcome (parse schema value)) as [[v|error]|message] eqn:Hchild;
      try reflexivity.
    now rewrite (WrapperFacts.built_value_present schema Hbuilt value v Hpresent Hchild).
Qed.

Lemma C4_optional_witness :
  outcome (parse (SchemaTs.optional nullAnswering) (VString "a")) =
  match outcome (parse nullAnswering (VString "a")) with
  | Returned (ResOk v) => Returned (ResOk (if isNil v then None_ else present v))
  | Returned (ResErr error) => Returned (ResErr error)
  | Thrown message => Thrown message
  end.
Proof.
  apply (proj1 (proj2 C4_optional)). reflexivity.
Defined.

(** C4 as stated fails for a child that answers a present input with
    [null]: [optional] does not wrap that success as
    [{ some: true, value: null }] but answers [None]. *)
Lemma C4_null_success_counterexample :
  isNil (VNumber 5) = false
  /\ outcome (parse nullAnswering (VNumber 5)) = Returned (ResOk VNull)
  /\ outcome (parse (SchemaTs.optional nullAnswering) (VNumber 5))
     = Returned (ResOk None_)
  /\ None_ <> present VNull.
Proof. repeat split; try reflexivity. discriminate. Qed.

(** C5.  On an absent input [defaulted(schema, d)] answers [Ok(d)] having
    entered [Ok] and nothing else, whatever [schema] and [d] are: the
    default is not validated.  On a present input it is the child's
    validator, unchanged.  Its [type] is the child's.
    [defaulted(number(), 0)] answers [undefined] with [Ok(0)], and a default
    that [number()] rejects is answered all the same. *)
Theorem C5_defaulted :
  (forall (schema : Schema) (defaultValue value : Value),
     isNil value = true ->
     parse (SchemaTs.defaulted schema defaultValue) value
       = ([CallOk], Returned (ResOk defaultValue)))
  /\
  (forall (schema : Schema) (defaultValue value : Value),
     isNil value = false ->
     parse (SchemaTs.defaulted schema defaultValue) value = parse schema value)
  /\
  (forall (schema : Schema) (defaultValue : Value),
     type (SchemaTs.defaulted schema defaultValue) = type schema)
  /\
  outcome (parse (SchemaTs.defaulted SchemaTs.number (VNumber 0)) VUndefined)
    = Returned (ResOk (VNumber 0))
  /\
  outcome (parse (SchemaTs.defaulted SchemaTs.number (VString "none")) VNull)
    = Returned (ResOk (VString "none"))
  /\
  outcome (parse SchemaTs.number (VString "none"))
    = Returned (ResErr {| path := []; message := "Expecting number";
                          input := VString "none" |})
  /\
  parse (SchemaTs.defaulted throwing (VNumber 0)) VUndefined
    = ([CallOk], Returned (ResOk (VNumber 0))).
Proof.
  split; [|split; [|split; [|repeat split; vm_compute; reflexivity]]].
  - intros schema defaultValue value Habsent.
    cbn [parse SchemaTs.defaulted]. now rewrite Habsent.
  - intros schema defaultValue value Hpresent.
    cbn [parse SchemaTs.defaulted]. now rewrite Hpresent.
  - reflexivity.
Qed.

Lemma C5_defaulted_witness :
  parse (SchemaTs.defaulted (SchemaTs.array SchemaTs.number) (VString "none")) VNull
    = ([CallOk], Returned (ResOk (VString "none")))
  /\ parse (SchemaTs.defaulted SchemaTs.string (VNumber 0)) (VBoolean true)
    = parse SchemaTs.string (VBoolean true).
Proof.
  split.
  - apply (proj1 C5_defaulted). reflexivity.
  - apply (proj1 (proj2 C5_defaulted)). reflexivity.
Defined.

(** *** Primitive and structural checks *)

(** C6.  [number()] answers a finite number with [Ok] of that number and
    every other input with the error "Expecting number", empty path, the
    input itself as the offending value; so it accepts exactly the finite
    numbers.  NaN, the two infinities and the string ["1"] are rejected,
    3.14 is accepted as 3.14. *)
Theorem C6_number :
  (forall value : Value,
     outcome (parse SchemaTs.number value) =
     if isFinite value
     then Returned (ResOk value)
     else Returned (ResErr {| path := []; message := "Expecting number";
                              input := value |}))
  /\
  (forall value v : Value,
     outcome (parse SchemaTs.number value) = Returned (ResOk v) <->
     v = value /\ exists n, value = VNumber n /\ PrimFloat.is_finite n = true)
  /\
  outcome (parse SchemaTs.number (VNumber PrimFloat.nan))
    = Returned (ResErr {| path := []; message := "Expecting number";
                          input := VNumber PrimFloat.nan |})
  /\
  outcome (parse SchemaTs.number (VNumber PrimFloat.infinity))
    = Returned (ResErr {| path := []; message := "Expecting number";
                          input := VNumber PrimFloat.infinity |})
  /\
  outcome (parse SchemaTs.number (VNumber PrimFloat.neg_infinity))
    = Returned (ResErr {| path := []; message := "Expecting number";
                          input := VNumber PrimFloat.neg_infinity |})
  /\
  outcome (parse SchemaTs.number (VString "1"))
    = Returned (ResErr {| path := []; message := "Expecting number";
                          input := VString "1" |})
  /\
  outcome (parse SchemaTs.number (VNumber 3.14))
    = Returned (ResOk (VNumber 3.14)).
Proof.
  assert (Hall : forall value : Value,
     outcome (parse SchemaTs.number value) =
     if isFinite value
     then Returned (ResOk value)
     else Returned (ResErr {| path := []; message := "Expecting number";
                              input := value |})).
  { intros value. cbn [parse SchemaTs.number].
    destruct value; try reflexivity.
    cbn [typeof isFinite]. rewrite String.eqb_refl. cbn [andb].
    now destruct (PrimFloat.is_finite n). }
  split; [exact Hall|]. split; [|repeat split; vm_compute; reflexivity].
  intros value v. rewrite Hall. split.
  - destruct (isFinite value) eqn:Hfinite; [|discriminate].
    intros [= <-]. split; [reflexivity|].
    destruct value; try discriminate. now exists n.
  - intros (-> & n & -> & Hfinite). cbn [isFinite]. now rewrite Hfinite.
Qed.

(** C7.  On an input that is not a plain object, [object(shape)] answers
    at once with the error "Expecting object", empty path, having entered
    [Err] alone.  An input is not a plain object exactly when it is
    [undefined] or [null] or its prototype is neither null nor
    [Object.prototype]; arrays, dates and instances of a class are such
    inputs. *)
Theorem C7_object_rejects_non_plain :
  (forall (shape : list (string * Schema)) (value : Value),
     isPlainObject value = false ->
     parse (SchemaTs.object shape) value
       = ([CallErr],
          Returned (ResErr {| path := []; message := "Expecting object";
                              input := value |})))
  /\
  (forall value : Value,
     isPlainObject value = false <->
     isNil value = true \/
     exists proto, getPrototypeOf value = Some proto /\
                   proto <> NullPrototype /\ proto <> ObjectPrototype)
  /\
  (forall elements, isPlainObject (VArray elements) = false)
  /\
  (forall time, isPlainObject (VDate time) = false)
  /\
  (forall name own, isPlainObject (VObject (ClassPrototype name) own) = false).
Proof.
  split; [|split; [|repeat split]].
  - intros shape value Hnot. cbn [parse SchemaTs.object]. now rewrite Hnot.
  - intros value. unfold isPlainObject. split.
    + destruct value; cbn; auto; try (intros _; right; eexists; repeat split; discriminate).
      destruct proto; try discriminate;
        intros _; right; eexists; repeat split; discriminate.
    + intros [Hnil | (proto & Hproto & Hnull & Hobject)].
      * now rewrite Hnil.
      * destruct (isNil value); [reflexivity|]. rewrite Hproto.
        destruct proto; congruence.
Qed.

Lemma C7_object_rejects_non_plain_witness :
  parse (SchemaTs.object [("a", SchemaTs.number)]) (VArray [VNumber 1])
    = ([CallErr],
       Returned (ResErr {| path := []; message := "Expecting object";
                           input := VArray [VNumber 1] |}))
  /\ parse (SchemaTs.object [("a", SchemaTs.number)])
           (VObject (ClassPrototype "Point") [("a", VNumber 1)])
    = ([CallErr],
       Returned (ResErr {| path := []; message := "Expecting object";
                           input := VObject (ClassPrototype "Point") [("a", VNumber 1)] |})).
Proof.
  split; apply (proj1 C7_object_rejects_non_plain); reflexivity.
Defined.

(** *** The object a successful validation builds *)

Module ObjectFacts.

Lemma combine_keys {A : Type} (R : string -> A -> Prop) (keys : list string)
    (values : list A) :
  Forall2 R keys values -> List.map fst (combine keys values) = keys.
Proof.
  induction 1 as [|key v keys values _ _ IH]; simpl; [reflexivity | now rewrite IH].
Qed.

(** In the object written key by key, each key reads as the value written
    for it. *)
Lemma combine_lookup {A : Type} (R : string -> A -> Prop) (keys : list string)
    (values : list A) :
  NoDup keys ->
  Forall2 R keys values ->
  Forall2 (fun key v => R key v /\ lookup key (combine keys values) = Some v) keys values.
Proof.
  intros Hnd Hall. induction Hall as [|key v keys values Hkey Hrest IH];
    [constructor|].
  inversion Hnd as [|? ? Hnot Hnd']; subst.
  constructor.
  - split; [assumption|]. simpl.
    rewrite lookup_undeclared; [now rewrite String.eqb_refl|].
    now rewrite (combine_keys R keys values Hrest).
  - apply Forall2_impl with (2 := IH Hnd').
    intros k w [Hk Hlook]. split; [assumption|]. simpl. now rewrite Hlook.
Qed.

Lemma Forall2_In_left {A B : Type} (R : A -> B -> Prop) (l : list A) (l' : list B) (a : A) :
  Forall2 R l l' -> In a l -> exists b, R a b.
Proof.
  induction 1 as [|x y l l' Hxy _ IH]; simpl; [tauto|].
  intros [<- | Hin]; [now exists y | auto].
Qed.

(** What a successful object loop over all the shape's keys has built. *)
Lemma object_succeeded (shape : list (string * Schema)) (value out : Value) :
  outcome (parse (SchemaTs.object shape) value) = Returned (ResOk out) ->
  isPlainObject value = true /\
  exists values,
    out = VObject NullPrototype (combine (forIn shape) values) /\
    Forall2 (fun key v =>
               (exists schema,
                  lookup key shape = Some schema /\
                  outcome (parse schema (get value key)) = Returned (ResOk v)) /\
               lookup key (combine (forIn shape) values) = Some v)
            (forIn shape) values.
Proof.
  cbn [parse SchemaTs.object].
  destruct (isPlainObject value); cbn [negb]; [|discriminate].
  intros Hloop. split; [reflexivity|].
  apply objectLoop_succeeded in Hloop. destruct Hloop as (values & -> & Hall).
  exists values. split; [reflexivity|].
  apply combine_lookup; [apply forIn_NoDup | assumption].
Qed.

End ObjectFacts.

(** C8.  When [object(shape)] succeeds, its value is a new object without
    prototype whose own keys are the shape's field names, each once, in the
    order the fields were visited; a name outside the shape reads as
    [undefined] on it, whatever the input held under that name; and each
    field holds the value its child answered for [input[key]].
    [object({a: number()})] answers [{a: 1, z: 99}] with [{a: 1}]. *)
Theorem C8_object_keeps_shape_fields :
  (forall (shape : list (string * Schema)) (value out : Value),
     outcome (parse (SchemaTs.object shape) value) = Returned (ResOk out) ->
     exists own : list (string * Value),
       out = VObject NullPrototype own /\
       List.map fst own = forIn shape /\
       NoDup (List.map fst own) /\
       (forall key, In key (List.map fst own) <-> In key (List.map fst shape)) /\
       (forall key, ~ In key (List.map fst shape) ->
                    lookup key own = None /\ get out key = VUndefined) /\
       (forall key, In key (List.map fst shape) ->
          exists schema v,
            lookup key shape = Some schema /\
            outcome (parse schema (get value key)) = Returned (ResOk v) /\
            lookup key own = Some v))
  /\
  outcome (parse (SchemaTs.object [("a", SchemaTs.number)])
                 (literal [("a", VNumber 1); ("z", VNumber 99)]))
  = Returned (ResOk (VObject NullPrototype [("a", VNumber 1)])).
Proof.
  split; [|vm_compute; reflexivity].
  intros shape value out Hok.
  apply ObjectFacts.object_succeeded in Hok.
  destruct Hok as (_ & values & -> & Hall).
  exists (combine (forIn shape) values).
  assert (Hkeys : List.map fst (combine (forIn shape) values) = forIn shape)
    by apply (ObjectFacts.combine_keys _ _ _ Hall).
  split; [reflexivity|]. split; [assumption|].
  rewrite Hkeys. split; [apply forIn_NoDup|].
  split; [intros key; apply forIn_In|]. split.
  - intros key Hnot.
    assert (Hnone : lookup key (combine (forIn shape) values) = None).
    { apply lookup_undeclared. rewrite Hkeys, forIn_In. assumption. }
    split; [assumption|]. cbn [get]. now rewrite Hnone.
  - intros key Hin. apply forIn_In in Hin.
    destruct (ObjectFacts.Forall2_In_left _ _ _ _ Hall Hin)
      as (v & (schema & Hschema & Hchild) & Hlook).
    now exists schema, v.
Qed.

Lemma C8_object_keeps_shape_fields_witness :
  exists own : list (string * Value),
    VObject NullPrototype [("1", VString "one"); ("b", VBoolean true)]
      = VObject NullPrototype own /\
    List.map fst own = forIn [("b", SchemaTs.boolean); ("1", SchemaTs.string)] /\
    NoDup (List.map fst own) /\
    (forall key, In key (List.map fst own) <->
                 In key (List.map fst [("b", SchemaTs.boolean); ("1", SchemaTs.string)])) /\
    (forall key, ~ In key (List.map fst [("b", SchemaTs.boolean); ("1", SchemaTs.string)]) ->
                 lookup key own = None /\
                 get (VObject NullPrototype [("1", VString "one"); ("b", VBoolean true)]) key
                   = VUndefined) /\
    (forall key, In key (List.map fst [("b", SchemaTs.boolean); ("1", SchemaTs.string)]) ->
       exists schema v,
         lookup key [("b", SchemaTs.boolean); ("1", SchemaTs.string)] = Some schema /\
         outcome (parse schema
                    (get (literal [("b", VBoolean true); ("extra", VNull); ("1", VString "one")])
                         key))
           = Returned (ResOk v) /\
         lookup key own = Some v).
Proof.
  apply (proj1 C8_object_keeps_shape_fields
           [("b", SchemaTs.boolean); ("1", SchemaTs.string)]
           (literal [("b", VBoolean true); ("extra", VNull); ("1", VString "one")])).
  vm_compute. reflexivity.
Defined.

(** *** Validating a validated value *)

Module StabilityFacts.

Lemma Forall2_settled {A : Type} (R : A -> A -> Prop) (l l' : list A) :
  (forall a b, In a l -> R a b -> R b b) ->
  Forall2 R l l' -> Forall2 R l' l'.
Proof.
  intros Hsettle Hall. induction Hall as [|a b l l' Hab _ IH]; constructor.
  - apply (Hsettle a b); [now left | assumption].
  - apply IH. intros x y Hx. apply Hsettle. now right.
Qed.

(** The object built by a successful validation is a plain object. *)
Lemma built_object_is_plain (own : list (string * Value)) :
  isPlainObject (VObject NullPrototype own) = true.
Proof. reflexivity. Qed.

End StabilityFacts.

(** C10.  For a schema made of [string()], [number()], [boolean()],
    [array] and [object] alone: a value the schema answered with is
    answered with itself when validated again.  The object [object]
    builds, which has no prototype, passes the plain-object check. *)
Theorem C10_validation_is_stable :
  forall schema : Schema,
    structural schema ->
    forall value v : Value,
      outcome (parse schema value) = Returned (ResOk v) ->
      outcome (parse schema v) = Returned (ResOk v).
Proof.
  induction 1 as [| | |schema _ IH|shape _ IH]; intros value v.
  - cbn [parse SchemaTs.string].
    destruct (String.eqb (typeof value) "string") eqn:Htype; [|discriminate].
    intros [= <-]. now rewrite Htype.
  - cbn [parse SchemaTs.number].
    destruct (_ && _)%bool eqn:Hcheck; [|discriminate].
    intros [= <-]. now rewrite Hcheck.
  - cbn [parse SchemaTs.boolean].
    destruct (String.eqb (typeof value) "boolean") eqn:Htype; [|discriminate].
    intros [= <-]. now rewrite Htype.
  - cbn [parse SchemaTs.array]. destruct value; try discriminate.
    intros Hloop. apply arrayLoop_succeeded in Hloop.
    destruct Hloop as (values & -> & Hall). cbn [app].
    assert (Hsettled :
      Forall2 (fun x w => outcome (parse schema x) = Returned (ResOk w)) values values).
    { apply StabilityFacts.Forall2_settled with (2 := Hall). intros x w _. apply IH. }
    exact (arrayLoop_all_ok schema values values Hsettled 0 []).
  - intros Hok. apply ObjectFacts.object_succeeded in Hok.
    destruct Hok as (_ & values & -> & Hall).
    cbn [parse SchemaTs.object]. rewrite StabilityFacts.built_object_is_plain. cbn [negb].
    apply (objectLoop_all_ok shape _ (forIn shape) values).
    apply Forall2_impl with (2 := Hall).
    intros key w [(child & Hchild & Hw) Hlook].
    exists child. split; [assumption|].
    cbn [get]. rewrite Hlook.
    apply (IH key child (lookup_In _ _ _ Hchild) _ _ Hw).
Qed.

Lemma C10_validation_is_stable_witness :
  outcome
    (parse (SchemaTs.object [("tags", SchemaTs.array SchemaTs.string); ("n", SchemaTs.number)])
           (VObject NullPrototype [("tags", VArray [VString "a"]); ("n", VNumber 2)]))
  = Returned (ResOk (VObject NullPrototype [("tags", VArray [VString "a"]); ("n", VNumber 2)])).
Proof.
  apply (C10_validation_is_stable
           (SchemaTs.object [("tags", SchemaTs.array SchemaTs.string); ("n", SchemaTs.number)]))
    with (value := literal [("n", VNumber 2); ("tags", VArray [VString "a"]); ("x", VNull)]).
  - apply structural_object.
    intros key schema [[= <- <-] | [[= <- <-] | []]].
    + apply structural_array, structural_string.
    + apply structural_number.
  - vm_compute. reflexivity.
Defined.

(** *** schema.ts against mod.ts *)

Module TwinFacts.

Lemma mod_arrayLoop_cons (schema : Schema) (i : nat) (element : Value)
    (rest arr : list Value) :
  outcome (ModTs.arrayLoop schema i (element :: rest) arr) =
  match outcome (parse schema element) with
  | Returned (ResOk value) => outcome (ModTs.arrayLoop schema (S i) rest (arr ++ [value]))
  | Returned (ResErr error) => Returned (ResErr (ModTs.unshift error (toString i)))
  | Thrown message => Thrown message
  end.
Proof.
  cbn [ModTs.arrayLoop]. rewrite outcome_bind.
  destruct (outcome (parse schema element)) as [[value|error]|message];
    try reflexivity.
  rewrite outcome_bind. cbn [outcome snd Oxido.isErr isErr bind enter ret ok negb].
  now rewrite outcome_bind.
Qed.

Lemma mod_objectLoop_cons (shape : list (string * Schema)) (value : Value)
    (key : string) (keys : list string) (obj : list (string * Value)) :
  outcome (ModTs.objectLoop shape value (key :: keys) obj) =
  match lookup key shape with
  | None => Thrown "TypeError: Cannot read properties of undefined (reading 'parse')"
  | Some schema =>
      match outcome (parse schema (get value key)) with
      | Returned (ResOk v) =>
          outcome (ModTs.objectLoop shape value keys (assign obj key v))
      | Returned (ResErr error) => Returned (ResErr (ModTs.unshift error key))
      | Thrown message => Thrown message
      end
  end.
Proof.
  cbn [ModTs.objectLoop]. destruct (lookup key shape) as [schema|]; [|reflexivity].
  rewrite outcome_bind.
  destruct (outcome (parse schema (get value key))) as [[v|error]|message];
    try reflexivity.
  rewrite outcome_bind. cbn [outcome snd Oxido.isErr isErr bind enter ret ok negb].
  now rewrite outcome_bind.
Qed.

Lemma forIn_shapes (fields : list (string * Schema * Schema)) :
  forIn (modShape fields) = forIn (schemaShape fields).
Proof.
  unfold forIn, modShape, schemaShape. now rewrite !map_map.
Qed.

(** Under one name the two shapes hold the two children of one field, or
    nothing. *)
Lemma lookup_shapes (fields : list (string * Schema * Schema)) (key : string) :
  match lookup key (schemaShape fields), lookup key (modShape fields) with
  | Some s, Some m => exists k, In (k, s, m) fields
  | None, None => True
  | _, _ => False
  end.
Proof.
  induction fields as [|[[k s] m] fields IH]; simpl; [exact I|].
  destruct (lookup key (schemaShape fields)) as [s'|],
           (lookup key (modShape fields)) as [m'|]; try contradiction.
  - destruct IH as [k' Hin]. exists k'. now right.
  - destruct (String.eqb k key); [|exact I]. exists k. now left.
Qed.

Section Relabelled.

Variable g : string -> string.
Hypothesis g_array : g "Expecting array" = "Expecting array".
Hypothesis g_object : g "Expecting object" = "Expecting object".

Lemma array_answersAs (s m : Schema) :
  answersAs g s m -> answersAs g (SchemaTs.array s) (ModTs.array m).
Proof.
  intros Hchild value. cbn [parse SchemaTs.array ModTs.array].
  destruct value; try (cbn; now rewrite g_array).
  generalize 0 (@nil Value).
  induction elements as [|element rest IH]; intros i arr; [reflexivity|].
  rewrite mod_arrayLoop_cons, arrayLoop_cons, Hchild.
  destruct (outcome (parse s element)) as [[v|error]|message]; cbn [relabel];
    [apply IH | reflexivity | reflexivity].
Qed.

Lemma object_answersAs (fields : list (string * Schema * Schema)) :
  (forall key s m, In (key, s, m) fields -> answersAs g s m) ->
  answersAs g (SchemaTs.object (schemaShape fields)) (ModTs.object (modShape fields)).
Proof.
  intros Hchildren value. cbn [parse SchemaTs.object ModTs.object].
  change (ModTs.isPlainObject value) with (isPlainObject value).
  destruct (isPlainObject value); cbn [negb]; [|cbn; now rewrite g_object].
  rewrite forIn_shapes.
  generalize (forIn (schemaShape fields)) (@nil (string * Value)).
  induction l as [|key keys IH]; intros obj; [reflexivity|].
  rewrite mod_objectLoop_cons, objectLoop_cons.
  pose proof (lookup_shapes fields key) as Hlookup.
  destruct (lookup key (schemaShape fields)) as [s|],
           (lookup key (modShape fields)) as [m|]; try contradiction; [|reflexivity].
  destruct Hlookup as [k Hin]. rewrite (Hchildren k s m Hin).
  destruct (outcome (parse s (get value key))) as [[v|error]|message]; cbn [relabel];
    [apply IH | reflexivity | reflexivity].
Qed.

Lemma defaulted_answersAs (s m : Schema) (defaultValue : Value) :
  answersAs g s m ->
  answersAs g (SchemaTs.defaulted s defaultValue) (ModTs.defaulted m defaultValue).
Proof.
  intros Hchild value. cbn [parse SchemaTs.defaulted ModTs.defaulted].
  change (String.eqb (typeof value) "undefined"
          || match value with VNull => true | _ => false end)%bool
    with (isNil value).
  destruct (isNil value); [reflexivity | apply Hchild].
Qed.

Lemma optional_answersAs (s m : Schema) :
  SchemaTs.built s ->
  answersAs g s m -> answersAs g (SchemaTs.optional s) (ModTs.optional m).
Proof.
  intros Hbuilt Hchild value.
  destruct (isNil value) eqn:Hnil.
  - cbn [parse SchemaTs.optional ModTs.optional].
    change (String.eqb (typeof value) "undefined"
            || match value with VNull => true | _ => false end)%bool
      with (isNil value).
    now rewrite Hnil.
  - rewrite WrapperFacts.optional_present_outcome by assumption.
    cbn [parse ModTs.optional].
    change (String.eqb (typeof value) "undefined"
            || match value with VNull => true | _ => false end)%bool
      with (isNil value).
    rewrite Hnil, outcome_bind, Hchild.
    destruct (outcome (parse s value)) as [[v|error]|message] eqn:Hs; cbn [relabel];
      try reflexivity.
    now rewrite (WrapperFacts.built_value_present s Hbuilt value v Hnil Hs).
Qed.

End Relabelled.

Lemma relabel_same (o : Outcome (Result Value ParseError)) :
  relabel (fun message => message) o = o.
Proof. now destruct o as [[v|[p msg i]]|message]. Qed.

Lemma twin_built (s m : Schema) : twin s m -> SchemaTs.built s.
Proof.
  induction 1 as [| | | |s m _ IH|fields _ IH|s m _ IH|s m d _ IH];
    try (constructor; assumption).
  apply SchemaTs.built_object. intros key schema Hin.
  unfold schemaShape in Hin. apply in_map_iff in Hin.
  destruct Hin as ([[k s'] m'] & [= <- <-] & Hin). now apply (IH k s' m').
Qed.

Lemma twin_answersAs (s m : Schema) :
  twin s m -> type m = type s /\ answersAs modMessage s m.
Proof.
  induction 1 as [| | | |s m _ [IHt IH]|fields _ IH|s m Htwin [IHt IH]|s m d _ [IHt IH]].
  - split; [reflexivity|]. intros value. cbn [parse SchemaTs.string ModTs.string].
    now destruct (String.eqb _ _).
  - split; [reflexivity|]. intros value. cbn [parse SchemaTs.number ModTs.number].
    now destruct (_ && _)%bool.
  - split; [reflexivity|]. intros value. cbn [parse SchemaTs.boolean ModTs.boolean].
    now destruct (String.eqb _ _).
  - split; [reflexivity|]. intros value. rewrite DateFacts.mod_date_same.
    destruct (DateFacts.date_answers value) as [(time & -> & _ & ->) | [-> | (thrown & ->)]];
      reflexivity.
  - split; [cbn; now rewrite IHt | now apply array_answersAs].
  - split; [reflexivity|]. apply object_answersAs; [reflexivity|].
    intros key s m Hin. now apply (IH key s m).
  - split; [cbn; now rewrite IHt|].
    apply optional_answersAs; [now apply (twin_built s m) | assumption].
  - split; [assumption | now apply defaulted_answersAs].
Qed.

End TwinFacts.

(** C9, as the code has it.  A schema of [schema.ts] and the schema of
    [mod.ts] built by the same constructor calls, [optional] included, have
    the same type label and answer every input alike: the same value on
    success, the same path and offending input on failure, and the same
    message but for "Expecting string", which [mod.ts] words "Not a
    string", and "Expecting number", which it words "Expecting finite
    number".  [boolean()] and [date()] answer identically in the two
    modules, and so do [array], [object] and [defaulted] over children that
    do.  Both [optional] wrappers copy the child's [shape]. *)
Theorem C9_modules_differ_in_two_messages :
  (forall s m : Schema,
     twin s m ->
     type m = type s /\
     forall value, outcome (parse m value) = relabel modMessage (outcome (parse s value)))
  /\
  (forall value, outcome (parse ModTs.boolean value) = outcome (parse SchemaTs.boolean value))
  /\
  (forall value, outcome (parse ModTs.date value) = outcome (parse SchemaTs.date value))
  /\
  (forall s m : Schema,
     (forall value, outcome (parse m value) = outcome (parse s value)) ->
     forall value,
       outcome (parse (ModTs.array m) value) = outcome (parse (SchemaTs.array s) value))
  /\
  (forall fields : list (string * Schema * Schema),
     (forall key s m, In (key, s, m) fields ->
        forall value, outcome (parse m value) = outcome (parse s value)) ->
     forall value,
       outcome (parse (ModTs.object (modShape fields)) value)
       = outcome (parse (SchemaTs.object (schemaShape fields)) value))
  /\
  (forall (s m : Schema) (defaultValue : Value),
     (forall value, outcome (parse m value) = outcome (parse s value)) ->
     forall value,
       outcome (parse (ModTs.defaulted m defaultValue) value)
       = outcome (parse (SchemaTs.defaulted s defaultValue) value))
  /\
  (forall s : Schema,
     shape (SchemaTs.optional s) = shape s /\ shape (ModTs.optional s) = shape s).
Proof.
  split; [exact TwinFacts.twin_answersAs|].
  split; [intros value; cbn; now destruct (String.eqb _ _)|].
  split; [intros value; now rewrite DateFacts.mod_date_same|].
  split; [|split; [|split; [|split; reflexivity]]].
  - intros s m Hchild value.
    rewrite <- (TwinFacts.relabel_same (outcome (parse (SchemaTs.array s) value))).
    apply TwinFacts.array_answersAs; [reflexivity|].
    intros x. now rewrite TwinFacts.relabel_same.
  - intros fields Hchildren value.
    rewrite <- (TwinFacts.relabel_same
                  (outcome (parse (SchemaTs.object (schemaShape fields)) value))).
    apply TwinFacts.object_answersAs; [reflexivity|].
    intros key s m Hin x. rewrite TwinFacts.relabel_same. now apply (Hchildren key).
  - intros s m defaultValue Hchild value.
    rewrite <- (TwinFacts.relabel_same
                  (outcome (parse (SchemaTs.defaulted s defaultValue) value))).
    apply TwinFacts.defaulted_answersAs.
    intros x. now rewrite TwinFacts.relabel_same.
Qed.

Lemma C9_modules_differ_in_two_messages_witness :
  type (ModTs.array (ModTs.optional ModTs.number))
    = type (SchemaTs.array (SchemaTs.optional SchemaTs.number))
  /\ forall value,
       outcome (parse (ModTs.array (ModTs.optional ModTs.number)) value)
       = relabel modMessage
           (outcome (parse (SchemaTs.array (SchemaTs.optional SchemaTs.number)) value)).
Proof.
  apply (proj1 C9_modules_differ_in_two_messages).
  apply twin_array, twin_optional, twin_number.
Defined.

(** C9 as stated fails for [string()] and [number()]: on an input they
    reject, the two modules give different messages. *)
Lemma C9_string_number_counterexample :
  outcome (parse SchemaTs.string (VNumber 5))
    = Returned (ResErr {| path := []; message := "Expecting string"; input := VNumber 5 |})
  /\ outcome (parse ModTs.string (VNumber 5))
    = Returned (ResErr {| path := []; message := "Not a string"; input := VNumber 5 |})
  /\ outcome (parse SchemaTs.number (VString "1"))
    = Returned (ResErr {| path := []; message := "Expecting number"; input := VString "1" |})
  /\ outcome (parse ModTs.number (VString "1"))
    = Returned (ResErr {| path := []; message := "Expecting finite number";
                          input := VString "1" |})
  /\ outcome (parse ModTs.string (VNumber 5)) <> outcome (parse SchemaTs.string (VNumber 5))
  /\ outcome (parse ModTs.number (VString "1")) <> outcome (parse SchemaTs.number (VString "1")).
Proof. repeat split; try (vm_compute; reflexivity); vm_compute; discriminate. Qed.

Lemma C6_number_witness :
  outcome (parse SchemaTs.number (VNumber 3.14)) = Returned (ResOk (VNumber 3.14)).
Proof.
  apply (proj2 (proj1 (proj2 C6_number) (VNumber 3.14) (VNumber 3.14))).
  split; [reflexivity|]. exists 3.14%float. split; reflexivity.
Defined.

(* ================================================================== *)
(** ** Properties of the container layer *)
(* ================================================================== *)

Module CombinatorFacts.
Import OptionSum.

Lemma outcome_match {T E U : Type} (result : Result T E)
    (onOk : T -> M U) (onErr : E -> M U) :
  outcome (match_ result onOk onErr) =
  match result with
  | ResOk value => outcome (onOk value)
  | ResErr error => outcome (onErr error)
  end.
Proof.
  unfold match_. rewrite !outcome_bind. cbn [outcome snd enter isOk bind ret].
  now destruct result.
Qed.

Lemma outcome_map {T E U : Type} (result : Result T E) (fn : T -> M U) :
  outcome (map result fn) =
  match result with
  | ResOk value =>
      match outcome (fn value) with
      | Returned u => Returned (ResOk u)
      | Thrown message => Thrown message
      end
  | ResErr error => Returned (ResErr error)
  end.
Proof.
  unfold map. rewrite outcome_bind. cbn [outcome snd enter].
  rewrite outcome_match. destruct result as [value|error]; [|reflexivity].
  rewrite outcome_bind. now destruct (outcome (fn value)).
Qed.

Lemma outcome_mapErr {T E F : Type} (result : Result T E) (fn : E -> M F) :
  outcome (ResultRest.mapErr result fn) =
  match result with
  | ResOk value => Returned (ResOk value)
  | ResErr error =>
      match outcome (fn error) with
      | Returned f => Returned (ResErr f)
      | Thrown message => Thrown message
      end
  end.
Proof.
  unfold ResultRest.mapErr. rewrite outcome_match.
  destruct result as [value|error]; [reflexivity|].
  rewrite outcome_bind. now destruct (outcome (fn error)).
Qed.

Lemma outcome_andThen {T E U : Type} (result : Result T E) (fn : T -> M (Result U E)) :
  outcome (ResultRest.andThen result fn) =
  match result with
  | ResOk value => outcome (fn value)
  | ResErr error => Returned (ResErr error)
  end.
Proof. unfold ResultRest.andThen. rewrite outcome_match. now destruct result. Qed.

Lemma outcome_orElse {T E F : Type} (result : Result T E) (fn : E -> M (Result T F)) :
  outcome (ResultRest.orElse result fn) =
  match result with
  | ResOk value => Returned (ResOk value)
  | ResErr error => outcome (fn error)
  end.
Proof. unfold ResultRest.orElse. rewrite outcome_match. now destruct result. Qed.

Lemma outcome_option_map {T U : Type} (option : Option T) (fn : T -> M U) :
  outcome (OptionRest.map option fn) =
  match option with
  | OptSome value =>
      match outcome (fn value) with
      | Returned u => Returned (OptSome u)
      | Thrown message => Thrown message
      end
  | OptNone => Returned OptNone
  end.
Proof.
  destruct option as [value|]; [|reflexivity].
  cbn [OptionRest.map OptionRest.match_]. rewrite outcome_bind.
  now destruct (outcome (fn value)).
Qed.

Lemma outcome_filter {T : Type} (option : Option T) (fn : T -> M bool) :
  outcome (OptionRest.filter option fn) =
  match option with
  | OptSome value =>
      match outcome (fn value) with
      | Returned keep => Returned (if keep then OptSome value else OptNone)
      | Thrown message => Thrown message
      end
  | OptNone => Returned OptNone
  end.
Proof.
  destruct option as [value|]; [|reflexivity].
  unfold OptionRest.filter. rewrite outcome_bind. cbn [OptionRest.isSomeAnd].
  now destruct (outcome (fn value)).
Qed.

(** Pushes [outcome] through the combinators and splits on the variants
    and on what the callbacks answer. *)
Ltac push_outcome :=
  rewrite ?outcome_bind, ?outcome_map, ?outcome_mapErr, ?outcome_andThen,
    ?outcome_orElse, ?outcome_match, ?outcome_option_map, ?outcome_filter;
  cbn [outcome snd Ok Err enter bind ret app].

Ltac split_variant :=
  match goal with
  | |- context [match ?r with ResOk _ => _ | ResErr _ => _ end] =>
      is_var r; destruct r
  | |- context [match ?o with OptSome _ => _ | OptNone => _ end] =>
      is_var o; destruct o
  | |- context [match outcome ?m with Returned _ => _ | Thrown _ => _ end] =>
      destruct (outcome m) eqn:?
  | |- context [if ?b then _ else _] => is_var b; destruct b
  end.

Ltac settle := repeat first [reflexivity | progress push_outcome | split_variant].

End CombinatorFacts.

Import OptionSum CombinatorFacts.

(** *** result.ts *)

(** X1.  [map] and [mapErr] are functorial on their side of a result and
    leave the other side alone: mapping with the identity gives the result
    back, mapping twice is mapping with the composed function (also when a
    function throws), and the two commute. *)
Theorem X1_result_map_laws :
  forall (T E U V : Type) (result : Result T E)
         (f : T -> M U) (g : U -> M V) (h : E -> M U) (k : U -> M V),
    outcome (map result (fun value => ret value)) = Returned result
    /\ outcome (ResultRest.mapErr result (fun error => ret error)) = Returned result
    /\ outcome (r <- map result f ;; map r g)
       = outcome (map result (fun value => u <- f value ;; g u))
    /\ outcome (r <- ResultRest.mapErr result h ;; ResultRest.mapErr r k)
       = outcome (ResultRest.mapErr result (fun error => u <- h error ;; k u))
    /\ outcome (r <- map result f ;; ResultRest.mapErr r h)
       = outcome (r <- ResultRest.mapErr result h ;; map r f).
Proof.
  intros T E U V result f g h k. repeat split; settle.
Qed.

(** X2.  [andThen] chains results as a monad with [Ok] as unit, and
    [orElse] does the same on the error side with [Err] as unit: unit on the
    left, unit on the right, associativity. *)
Theorem X2_andThen_orElse_laws :
  forall (T E U V : Type) (result : Result T E) (value : T) (error : E)
         (f : T -> M (Result U E)) (g : U -> M (Result V E))
         (f' : E -> M (Result T U)) (g' : U -> M (Result T V)),
    outcome (r <- Ok value ;; ResultRest.andThen r f) = outcome (f value)
    /\ outcome (ResultRest.andThen result Ok) = Returned result
    /\ outcome (r <- ResultRest.andThen result f ;; ResultRest.andThen r g)
       = outcome (ResultRest.andThen result
                    (fun v => r <- f v ;; ResultRest.andThen r g))
    /\ outcome (r <- Err error ;; ResultRest.orElse r f') = outcome (f' error)
    /\ outcome (ResultRest.orElse result Err) = Returned result
    /\ outcome (r <- ResultRest.orElse result f' ;; ResultRest.orElse r g')
       = outcome (ResultRest.orElse result
                    (fun e => r <- f' e ;; ResultRest.orElse r g')).
Proof.
  intros T E U V result value error f g f' g'. repeat split; settle.
Qed.

(** X3.  The callback of the branch not taken is never invoked: on an
    [Err], [map], [andThen], [mapOr] and [isOkAnd] answer without running
    their function, and on an [Ok] so do [mapErr], [orElse],
    [unwrapOrElse] and [isErrAnd]; each is the same computation whatever
    the function is, and enters only [match] and [isOk] (or the test
    itself). *)
Theorem X3_untaken_branch_not_invoked :
  forall (T E U : Type) (value : T) (error : E) (defaultValue : U)
         (f : T -> M U) (f1 : T -> M (Result U E)) (p : T -> M bool)
         (g : E -> M U) (g1 : E -> M (Result T U)) (g2 : E -> M T) (q : E -> M bool),
    map (ResErr error) f = ([CallMap; CallMatch; CallIsOk], Returned (ResErr error))
    /\ ResultRest.andThen (ResErr error) f1
       = ([CallMatch; CallIsOk], Returned (ResErr error))
    /\ ResultRest.mapOr (ResErr error) defaultValue f
       = ([CallMatch; CallIsOk], Returned defaultValue)
    /\ ResultRest.isOkAnd (ResErr error) p = ([CallIsOk], Returned false)
    /\ ResultRest.mapErr (ResOk value) g
       = ([CallMatch; CallIsOk], Returned (ResOk value))
    /\ ResultRest.orElse (ResOk value) g1
       = ([CallMatch; CallIsOk], Returned (ResOk value))
    /\ ResultRest.unwrapOrElse (ResOk value) g2
       = ([CallMatch; CallIsOk], Returned value)
    /\ ResultRest.isErrAnd (ResOk value) q = ([CallIsErr], Returned false).
Proof. intros. repeat split. Qed.

(** X4.  [unwrap] returns exactly on an [Ok] and [unwrapErr] exactly on an
    [Err], so of the two exactly one returns and the other throws its fixed
    message; [expect] and [expectErr] do the same with the caller's message.
    Whenever [unwrap] returns, [unwrapOr] and [unwrapOrElse] return the same
    value. *)
Theorem X4_unwrap_family :
  forall (T E : Type) (result : Result T E) (message : string)
         (defaultValue : T) (fn : E -> M T),
    (outcome (unwrap result) =
       match result with
       | ResOk value => Returned value
       | ResErr _ => Thrown "called `Result.unwrap` on an `Err` value"
       end)
    /\ (outcome (unwrapErr result) =
       match result with
       | ResOk _ => Thrown "called `Result.unwrapErr` on an `Ok` value"
       | ResErr error => Returned error
       end)
    /\ (outcome (expect result message) =
       match result with
       | ResOk value => Returned value
       | ResErr _ => Thrown message
       end)
    /\ (outcome (expectErr result message) =
       match result with
       | ResOk _ => Thrown message
       | ResErr error => Returned error
       end)
    /\ ((exists value, outcome (unwrap result) = Returned value) <->
        (exists thrown, outcome (unwrapErr result) = Thrown thrown))
    /\ (forall value, outcome (unwrap result) = Returned value ->
          outcome (ResultRest.unwrapOr result defaultValue) = Returned value /\
          outcome (ResultRest.unwrapOrElse result fn) = Returned value).
Proof.
  intros T E result message defaultValue fn.
  destruct result as [value|error];
    (split; [reflexivity|]); (split; [reflexivity|]);
    (split; [reflexivity|]); (split; [reflexivity|]); split.
  - split; intros _; eexists; reflexivity.
  - intros v [= <-]. split; reflexivity.
  - split; intros [x H]; discriminate H.
  - intros v H. discriminate H.
Qed.

(** X5.  The defaulting accessors do not throw on their own: [unwrapOr]
    returns the value of an [Ok] and the default on an [Err].  [mapOr] is
    [map] followed by [unwrapOr], [mapOrElse] with a constant fallback is
    [mapOr], and [unwrapOrElse] with a constant function is [unwrapOr]. *)
Theorem X5_result_defaults :
  forall (T E U : Type) (result : Result T E) (d : T) (defaultValue : U)
         (f : T -> M U),
    outcome (ResultRest.unwrapOr result d)
      = Returned (match result with ResOk value => value | ResErr _ => d end)
    /\ outcome (ResultRest.mapOr result defaultValue f)
       = outcome (r <- map result f ;; ResultRest.unwrapOr r defaultValue)
    /\ ResultRest.mapOrElse result (fun _ => ret defaultValue) f
       = ResultRest.mapOr result defaultValue f
    /\ ResultRest.unwrapOrElse result (fun _ => ret d) = ResultRest.unwrapOr result d.
Proof.
  intros T E U result d defaultValue f. repeat split; try reflexivity.
  - now destruct result.
  - unfold ResultRest.mapOr, ResultRest.unwrapOr. settle.
Qed.

(** X6.  [toErr] keeps the error of an [Err] only when that error is
    neither [null] nor [undefined]: it answers [Some(e)] exactly for
    [Err(e)] with [e] present, and [None] for every [Ok] and for [Err(null)]
    and [Err(undefined)] alike. *)
Theorem X6_toErr_drops_nil_error :
  forall (T : Type) (result : Result T Value) (e : Value),
    (outcome (ResultRest.toErr result) = Returned (OptSome e) <->
     result = ResErr e /\ isNil e = false)
    /\ (outcome (ResultRest.toErr result) = Returned OptNone <->
        (exists value, result = ResOk value) \/
        (exists error, result = ResErr error /\ isNil error = true))
    /\ outcome (ResultRest.toErr (@ResErr T Value VNull)) = Returned OptNone
    /\ outcome (ResultRest.toErr (@ResErr T Value VUndefined)) = Returned OptNone.
Proof.
  intros T result e.
  assert (Hto : forall r : Result T Value,
            outcome (ResultRest.toErr r) =
            Returned (match r with
                      | ResOk _ => OptNone
                      | ResErr error => if isNil error then OptNone else OptSome error
                      end)).
  { intros r. unfold ResultRest.toErr, isPresent. rewrite outcome_match.
    destruct r as [value|error]; [reflexivity|]. now destruct (isNil error). }
  rewrite !Hto. split; [|split; [|split; reflexivity]].
  - destruct result as [value|error].
    + split; [discriminate | intros [[=] _]].
    + destruct (isNil error) eqn:Hnil.
      * split; [discriminate | intros [[= <-] H]; congruence].
      * split; [intros [= <-]; auto | intros [[= <-] _]; reflexivity].
  - destruct result as [value|error].
    + split; [intros _; left; now exists value | reflexivity].
    + destruct (isNil error) eqn:Hnil.
      * split; [intros _; right; now exists error | reflexivity].
      * split; [discriminate|].
        intros [[value [=]] | (x & [= <-] & H)]. congruence.
Qed.

(** X7.  [isOkAnd] is true exactly on an [Ok] whose value the predicate
    accepts, [isErrAnd] exactly on an [Err] whose error it accepts; with
    the predicate that is always true they are [isOk] and [isErr]. *)
Theorem X7_isOkAnd_isErrAnd :
  forall (T E : Type) (result : Result T E) (p : T -> M bool) (q : E -> M bool),
    (outcome (ResultRest.isOkAnd result p) = Returned true <->
     exists value, result = ResOk value /\ outcome (p value) = Returned true)
    /\ (outcome (ResultRest.isErrAnd result q) = Returned true <->
        exists error, result = ResErr error /\ outcome (q error) = Returned true)
    /\ outcome (ResultRest.isOkAnd result (fun _ => ret true)) = outcome (isOk result)
    /\ outcome (ResultRest.isErrAnd result (fun _ => ret true)) = outcome (isErr result).
Proof.
  intros T E result p q. unfold ResultRest.isOkAnd, ResultRest.isErrAnd.
  rewrite !outcome_bind. cbn [outcome snd isOk isErr enter bind ret].
  destruct result as [value|error]; repeat split; try reflexivity; cbn.
  - intros H. now exists value.
  - now intros (v & [= <-] & H).
  - discriminate.
  - now intros (e & [= ] & _).
  - discriminate.
  - now intros (v & [= ] & _).
  - intros H. now exists error.
  - now intros (e & [= <-] & H).
Qed.

(** X8.  [and] and [or] on results are associative; [and] keeps the first
    error and otherwise answers the last operand, [or] keeps the first
    success and otherwise answers the last operand.  [and] is [andThen]
    with a constant function and [or] is [orElse] with one. *)
Theorem X8_result_and_or :
  forall (T E U V F G : Type) (a : Result T E) (b : Result U E) (c : Result V E)
         (b' : Result T F) (c' : Result T G),
    outcome (r <- ResultRest.and a b ;; ResultRest.and r c)
      = outcome (r <- ResultRest.and b c ;; ResultRest.and a r)
    /\ outcome (r <- ResultRest.or a b' ;; ResultRest.or r c')
       = outcome (r <- ResultRest.or b' c' ;; ResultRest.or a r)
    /\ outcome (ResultRest.and a b)
       = Returned (match a with ResOk _ => b | ResErr error => ResErr error end)
    /\ outcome (ResultRest.or a b')
       = Returned (match a with ResOk value => ResOk value | ResErr _ => b' end)
    /\ ResultRest.and a b = ResultRest.andThen a (fun _ => ret b)
    /\ ResultRest.or a b' = ResultRest.orElse a (fun _ => ret b').
Proof.
  intros T E U V F G a b c b' c'.
  unfold ResultRest.and, ResultRest.or.
  repeat split; try reflexivity; settle.
Qed.

(** *** option.ts *)

(** X9.  [from] answers [None] exactly for [null] and [undefined] and
    [Some] of the value otherwise, so it never wraps an absent value;
    followed by [unwrapOr] it is the value when present and the default
    when not.  The objects [OptionTs.from] and [OptionTs.Some_] hand to
    the validators are these options as JavaScript values. *)
Theorem X9_from_is_presence :
  forall (value defaultValue : Value),
    outcome (OptionSum.from value)
      = Returned (if isNil value then OptNone else OptSome value)
    /\ (forall inner, outcome (OptionSum.from value) = Returned (OptSome inner) ->
          inner = value /\ isNil inner = false)
    /\ outcome (o <- OptionSum.from value ;; OptionRest.unwrapOr o defaultValue)
       = Returned (if isNil value then defaultValue else value)
    /\ OptionTs.from value = (o <- OptionSum.from value ;; ret (asValue o))
    /\ OptionTs.Some_ value = (o <- OptionSum.Some_ value ;; ret (asValue o))
    /\ OptionTs.None_ = asValue OptionSum.None_.
Proof.
  intros value defaultValue. unfold OptionSum.from, OptionTs.from.
  destruct (isNil value) eqn:Hnil;
    (split; [reflexivity|]); (split; [|repeat split; reflexivity]).
  - discriminate.
  - intros inner [= <-]. now split.
Qed.

(** X10.  [xor] answers a [Some] exactly when one operand is [Some] and
    the other [None], and then it is that operand; it is symmetric, has
    [None] as unit, and cancels an option against itself. *)
Theorem X10_option_xor :
  forall (T : Type) (left right : Option T),
    isSome (OptionRest.xor left right) = xorb (isSome left) (isSome right)
    /\ OptionRest.xor left right = OptionRest.xor right left
    /\ OptionRest.xor left OptNone = left
    /\ OptionRest.xor OptNone right = right
    /\ OptionRest.xor left left = OptNone
    /\ (forall value, OptionRest.xor left right = OptSome value <->
          (left = OptSome value /\ right = OptNone) \/
          (left = OptNone /\ right = OptSome value)).
Proof.
  intros T left right.
  destruct left as [l|], right as [r|]; repeat split; try reflexivity;
    try discriminate; intuition (try discriminate; try congruence).
Qed.

(** X11.  [filter] answers [Some(v)] exactly when the option is [Some(v)]
    and the predicate accepts [v]; on [None] the predicate is not invoked;
    filtering twice with the same predicate is filtering once. *)
Theorem X11_option_filter :
  forall (T : Type) (option : Option T) (p : T -> M bool) (value : T),
    (outcome (OptionRest.filter option p) = Returned (OptSome value) <->
     option = OptSome value /\ outcome (p value) = Returned true)
    /\ OptionRest.filter OptNone p = ret OptNone
    /\ outcome (o <- OptionRest.filter option p ;; OptionRest.filter o p)
       = outcome (OptionRest.filter option p).
Proof.
  intros T option p value. split; [|split; [reflexivity|]].
  - rewrite outcome_filter. destruct option as [v|].
    + destruct (outcome (p v)) as [[|]|message] eqn:Hp.
      * split; [intros [= <-]; auto | intros [[= <-] _]; reflexivity].
      * split; [discriminate | intros [[= <-] H]; congruence].
      * split; [discriminate | intros [[= <-] H]; congruence].
    + split; [discriminate | intros [[=] _]].
  - rewrite outcome_bind, outcome_filter. destruct option as [v|]; [|reflexivity].
    destruct (outcome (p v)) as [[|]|message] eqn:Hp; try reflexivity.
    rewrite outcome_filter, Hp. reflexivity.
Qed.

(** X12.  On options [map] is functorial and keeps the variant, also when
    the function answers [null]: unlike [from] it does not test the value
    it wraps.  [andThen] chains options as a monad with [Some] as unit. *)
Theorem X12_option_map_andThen_laws :
  forall (T U V : Type) (option : Option T) (value : T)
         (f : T -> M U) (g : U -> M V)
         (k : T -> M (Option U)) (l : U -> M (Option V)),
    outcome (OptionRest.map option (fun v => ret v)) = Returned option
    /\ outcome (o <- OptionRest.map option f ;; OptionRest.map o g)
       = outcome (OptionRest.map option (fun v => u <- f v ;; g u))
    /\ (forall mapped, outcome (OptionRest.map option f) = Returned mapped ->
          isSome mapped = isSome option)
    /\ outcome (OptionRest.map (OptSome value) (fun _ => ret VNull))
       = Returned (OptSome VNull)
    /\ outcome (o <- OptionSum.Some_ value ;; OptionRest.andThen o k) = outcome (k value)
    /\ outcome (OptionRest.andThen option OptionSum.Some_) = Returned option
    /\ outcome (o <- OptionRest.andThen option k ;; OptionRest.andThen o l)
       = outcome (OptionRest.andThen option
                    (fun v => o <- k v ;; OptionRest.andThen o l)).
Proof.
  intros T U V option value f g k l.
  split; [settle|]. split; [settle|]. split.
  - intros mapped. rewrite outcome_option_map. destruct option as [v|].
    + destruct (outcome (f v)); [|discriminate]. now intros [= <-].
    + now intros [= <-].
  - split; [reflexivity|]. split; [settle|]. split.
    + now destruct option.
    + destruct option as [v|]; [|reflexivity].
      cbn [OptionRest.andThen OptionRest.match_]. reflexivity.
Qed.

(** X13.  [toOk] turns [Some(v)] into [Ok(v)] and [None] into [Err(err)];
    it is [okOrElse] with a constant function, and [okOrElse] does not
    invoke its function on a [Some].  The result is [Ok] exactly when the
    option was [Some]; unwrapping it with a default is unwrapping the
    option with that default; and taking its error back with [toErr] gives
    [err] only when the option was [None] and [err] is present. *)
Theorem X13_option_to_result :
  forall (T : Type) (option : Option T) (value : T) (err : Value) (d : T)
         (fn : unit -> M Value),
    OptionRest.toOk option err = OptionRest.okOrElse option (fun _ => ret err)
    /\ OptionRest.okOrElse (OptSome value) fn = ([CallOk], Returned (ResOk value))
    /\ outcome (r <- OptionRest.toOk option err ;; isOk r) = Returned (isSome option)
    /\ outcome (r <- OptionRest.toOk option err ;; ResultRest.unwrapOr r d)
       = outcome (OptionRest.unwrapOr option d)
    /\ outcome (r <- OptionRest.toOk option err ;; ResultRest.toErr r)
       = Returned (match option with
                   | OptSome _ => OptNone
                   | OptNone => if isNil err then OptNone else OptSome err
                   end).
Proof.
  intros T option value err d fn.
  destruct option as [v|]; repeat split; try reflexivity.
  cbn. unfold isPresent. now destruct (isNil err).
Qed.

(** X14.  On options [unwrap] and [expect] return exactly on a [Some] and
    throw on [None], [unwrap] with its fixed message and [expect] with the
    caller's; [unwrapOr] always returns; [mapOr] is [map] followed by
    [unwrapOr]; the accessors with a constant fallback are those with a
    default. *)
Theorem X14_option_unwrap_family :
  forall (T U : Type) (option : Option T) (message : string) (d : T)
         (defaultValue : U) (f : T -> M U),
    (outcome (OptionRest.unwrap option) =
       match option with
       | OptSome value => Returned value
       | OptNone => Thrown "called `Option.unwrap` on an `Err` value"
       end)
    /\ (outcome (OptionRest.expect option message) =
       match option with
       | OptSome value => Returned value
       | OptNone => Thrown message
       end)
    /\ outcome (OptionRest.unwrapOr option d)
       = Returned (match option with OptSome value => value | OptNone => d end)
    /\ outcome (OptionRest.mapOr option defaultValue f)
       = outcome (o <- OptionRest.map option f ;; OptionRest.unwrapOr o defaultValue)
    /\ OptionRest.mapOrElse option (fun _ => ret defaultValue) f
       = OptionRest.mapOr option defaultValue f
    /\ OptionRest.unwrapOrElse option (fun _ => ret d) = OptionRest.unwrapOr option d.
Proof.
  intros T U option message d defaultValue f.
  destruct option as [v|]; repeat split; try reflexivity.
  cbn [OptionRest.mapOr OptionRest.match_]. settle.
Qed.

(** X15.  [or] answers the first [Some] of its operands and [and] the
    last operand unless an earlier one is [None]; both are associative,
    [None] is the unit of [or] and absorbs under [and], and [or] agrees
    with [xor] whenever the operands are not both [Some]. *)
Theorem X15_option_and_or :
  forall (T U V : Type) (a b c : Option T) (b' : Option U) (c' : Option V),
    outcome (o <- OptionRest.or a b ;; OptionRest.or o c)
      = outcome (o <- OptionRest.or b c ;; OptionRest.or a o)
    /\ outcome (o <- OptionRest.and a b' ;; OptionRest.and o c')
       = outcome (o <- OptionRest.and b' c' ;; OptionRest.and a o)
    /\ OptionRest.or OptNone b = ret b
    /\ outcome (OptionRest.or a OptNone) = Returned a
    /\ OptionRest.and (@OptNone T) b' = ret OptNone
    /\ outcome (OptionRest.and a (@OptNone U)) = Returned OptNone
    /\ ((isSome a && isSome b)%bool = false ->
        outcome (OptionRest.or a b) = Returned (OptionRest.xor a b)).
Proof.
  intros T U V a b c b' c'.
  destruct a as [x|], b as [y|], c as [z|], b' as [y'|], c' as [z'|];
    repeat split; try reflexivity; discriminate.
Qed.

(* ================================================================== *)
(** ** Further properties of the engine *)
(* ================================================================== *)

Module EngineFacts.

Lemma to_uint_not_nil (n : nat) : Nat.to_uint n <> Decimal.Nil.
Proof.
  intros Hnil.
  assert (Hzero : n = 0) by (rewrite <- (DecimalNat.Unsigned.of_to n), Hnil; reflexivity).
  subst n. discriminate Hnil.
Qed.

Lemma toString_injective (i j : nat) : toString i = toString j -> i = j.
Proof.
  unfold toString. intros Heq.
  apply DecimalNat.Unsigned.to_uint_inj.
  assert (Hsome : Some (Nat.to_uint i) = Some (Nat.to_uint j)).
  { rewrite <- (NilZero.usu _ (to_uint_not_nil i)), <- (NilZero.usu _ (to_uint_not_nil j)).
    now rewrite Heq. }
  now injection Hsome.
Qed.

Lemma elementAt_nth (elements : list Value) :
  forall (i j : nat) (element : Value),
    nth_error elements j = Some element ->
    elementAt elements i (toString (i + j)) = Some element.
Proof.
  induction elements as [|x rest IH]; intros i [|j] element; simpl; try discriminate.
  - intros [= <-]. now rewrite Nat.add_0_r, String.eqb_refl.
  - intros Hnth. destruct (String.eqb (toString i) (toString (i + S j))) eqn:Heq.
    + apply String.eqb_eq, toString_injective in Heq. lia.
    + replace (i + S j) with (S i + j) by lia. now apply IH.
Qed.

Lemma plain_is_object (value : Value) :
  isPlainObject value = true -> exists proto own, value = VObject proto own.
Proof.
  destruct value; try discriminate. intros _. now eexists _, _.
Qed.

(** Past the first failing element the array loop does nothing. *)
Lemma arrayLoop_stops (schema : Schema) (before : list Value) :
  forall (i : nat) (arr : list Value) (element : Value) (after : list Value)
         (child : ParseError),
  (forall x, In x before -> exists v, outcome (parse schema x) = Returned (ResOk v)) ->
  outcome (parse schema element) = Returned (ResErr child) ->
  SchemaTs.arrayLoop schema i (before ++ element :: after) arr =
  SchemaTs.arrayLoop schema i (before ++ [element]) arr.
Proof.
  induction before as [|x before IH]; intros i arr element after child Hbefore Hfail;
    cbn [app SchemaTs.arrayLoop].
  - apply bind_ext. intros result Hresult.
    rewrite Hresult in Hfail. injection Hfail as ->. reflexivity.
  - destruct (Hbefore x (or_introl eq_refl)) as (v & Hv).
    apply bind_ext. intros result Hresult.
    rewrite Hresult in Hv. injection Hv as ->.
    apply bind_ext. intros failed [= <-]. cbn [negb ok].
    apply IH with (child := child); [intros; apply Hbefore; now right | assumption].
Qed.

(** The object loop reads the input only under the keys it visits. *)
Lemma objectLoop_reads_keys (shape : list (string * Schema)) (first second : Value)
    (keys : list string) :
  (forall key, In key keys -> get first key = get second key) ->
  forall obj,
    SchemaTs.objectLoop shape first keys obj = SchemaTs.objectLoop shape second keys obj.
Proof.
  induction keys as [|key keys IH]; intros Hsame obj; cbn [SchemaTs.objectLoop];
    [reflexivity|].
  rewrite (Hsame key (or_introl eq_refl)).
  destruct (lookup key shape) as [schema|]; [|reflexivity].
  apply bind_ext. intros result _. apply bind_ext. intros [|] _; [reflexivity|].
  apply IH. intros k Hk. apply Hsame. now right.
Qed.

Lemma mod_arrayLoop_failed (schema : Schema) (rest : list Value) :
  forall (i : nat) (arr : list Value) (err : ParseError),
  outcome (ModTs.arrayLoop schema i rest arr) = Returned (ResErr err) ->
  exists (element : Value) (child : ParseError),
    outcome (parse schema element) = Returned (ResErr child) /\
    message err = message child.
Proof.
  induction rest as [|element rest IH]; intros i arr err.
  - discriminate.
  - rewrite TwinFacts.mod_arrayLoop_cons.
    destruct (outcome (parse schema element)) as [[value|error]|thrown] eqn:Hchild;
      [apply IH | intros [= <-]; now exists element, error | discriminate].
Qed.

Lemma mod_objectLoop_failed (shape : list (string * Schema)) (value : Value)
    (keys : list string) :
  forall (obj : list (string * Value)) (err : ParseError),
  outcome (ModTs.objectLoop shape value keys obj) = Returned (ResErr err) ->
  exists (key : string) (schema : Schema) (child : ParseError),
    lookup key shape = Some schema /\
    outcome (parse schema (get value key)) = Returned (ResErr child) /\
    message err = message child.
Proof.
  induction keys as [|key keys IH]; intros obj err.
  - discriminate.
  - rewrite TwinFacts.mod_objectLoop_cons.
    destruct (lookup key shape) as [schema|] eqn:Hschema; [|discriminate].
    destruct (outcome (parse schema (get value key))) as [[v|error]|thrown] eqn:Hchild;
      [apply IH | intros [= <-]; now exists key, schema, error | discriminate].
Qed.

End EngineFacts.

(** X16.  The path of an error leads to its offending input: for a schema
    built from the constructors, walking from the validated value along the
    error's path, into arrays by index and into objects by key, arrives at
    the value the error holds as [input]. *)
Theorem X16_path_leads_to_input :
  forall schema : Schema,
    SchemaTs.built schema ->
    forall (value : Value) (err : ParseError),
      outcome (parse schema value) = Returned (ResErr err) ->
      follow value (path err) = Some (input err).
Proof.
  induction 1 as [| | | |schema _ IH|shape _ IH|schema _ IH|schema defaultValue _ IH];
    intros value err.
  - cbn [parse SchemaTs.string]. destruct (String.eqb _ _); [discriminate|].
    now intros [= <-].
  - cbn [parse SchemaTs.number]. destruct (_ && _)%bool; [discriminate|].
    now intros [= <-].
  - cbn [parse SchemaTs.boolean]. destruct (String.eqb _ _); [discriminate|].
    now intros [= <-].
  - destruct (DateFacts.date_answers value) as [(time & -> & _ & ->) | [-> | (thrown & ->)]];
      [discriminate | now intros [= <-] | discriminate].
  - cbn [parse SchemaTs.array]. destruct value; try (now intros [= <-]).
    intros Hloop. apply arrayLoop_failed in Hloop.
    destruct Hloop as (j & element & child & Hnth & _ & Hfail & ->).
    cbn [path input SchemaTs.unshift follow stepInto].
    rewrite (EngineFacts.elementAt_nth elements 0 j element Hnth).
    now apply IH.
  - cbn [parse SchemaTs.object].
    destruct (isPlainObject value) eqn:Hplain; cbn [negb]; [|now intros [= <-]].
    intros Hloop. apply objectLoop_failed in Hloop.
    destruct Hloop as (key & schema & child & _ & Hschema & Hfail & ->).
    destruct (EngineFacts.plain_is_object value Hplain) as (proto & own & ->).
    cbn [path input SchemaTs.unshift follow stepInto].
    now apply (IH key schema (lookup_In _ _ _ Hschema)).
  - destruct (isNil value) eqn:Hnil.
    + cbn [parse SchemaTs.optional]. rewrite Hnil. discriminate.
    + rewrite WrapperFacts.optional_present_outcome by assumption.
      destruct (outcome (parse schema value)) as [[v|error]|thrown] eqn:Hchild;
        try discriminate.
      intros [= <-]. now apply IH.
  - cbn [parse SchemaTs.defaulted]. destruct (isNil value); [discriminate | apply IH].
Qed.

Lemma X16_path_leads_to_input_witness :
  follow (literal [("items", VArray [VNull; literal [("n", VString "x")]])])
         ["items"; "1"; "n"]
  = Some (VString "x").
Proof.
  apply (X16_path_leads_to_input
           (SchemaTs.object
              [("items", SchemaTs.array
                           (SchemaTs.optional (SchemaTs.object [("n", SchemaTs.number)])))]))
    with (err := {| path := ["items"; "1"; "n"]; message := "Expecting number";
                    input := VString "x" |}).
  - apply SchemaTs.built_object. intros key schema [[= <- <-] | []].
    apply SchemaTs.built_array, SchemaTs.built_optional, SchemaTs.built_object.
    intros key' schema' [[= <- <-] | []]. apply SchemaTs.built_number.
  - vm_compute. reflexivity.
Defined.

(** X17.  The message of an error is one of six fixed texts: those of
    [schemaMessages] for a schema built in [schema.ts], those of
    [modMessages] for one built in [mod.ts]; the wrappers and containers
    add no message of their own beyond "Expecting array" and "Expecting
    object". *)
Theorem X17_messages_are_fixed :
  (forall schema : Schema,
     SchemaTs.built schema ->
     forall (value : Value) (err : ParseError),
       outcome (parse schema value) = Returned (ResErr err) ->
       In (message err) schemaMessages)
  /\
  (forall schema : Schema,
     ModTs.built schema ->
     forall (value : Value) (err : ParseError),
       outcome (parse schema value) = Returned (ResErr err) ->
       In (message err) modMessages).
Proof.
  split.
  - induction 1 as [| | | |schema _ IH|shape _ IH|schema _ IH|schema defaultValue _ IH];
      intros value err.
    + cbn [parse SchemaTs.string]. destruct (String.eqb _ _); [discriminate|].
      intros [= <-]. cbn. tauto.
    + cbn [parse SchemaTs.number]. destruct (_ && _)%bool; [discriminate|].
      intros [= <-]. cbn. tauto.
    + cbn [parse SchemaTs.boolean]. destruct (String.eqb _ _); [discriminate|].
      intros [= <-]. cbn. tauto.
    + destruct (DateFacts.date_answers value) as [(time & -> & _ & ->) | [-> | (thrown & ->)]];
        [discriminate | intros [= <-]; cbn; tauto | discriminate].
    + cbn [parse SchemaTs.array].
      destruct value; try (intros [= <-]; cbn; tauto).
      intros Hloop. apply arrayLoop_failed in Hloop.
      destruct Hloop as (j & element & child & _ & _ & Hfail & ->).
      cbn [message SchemaTs.unshift]. now apply (IH element).
    + cbn [parse SchemaTs.object].
      destruct (isPlainObject value); cbn [negb]; [|intros [= <-]; cbn; tauto].
      intros Hloop. apply objectLoop_failed in Hloop.
      destruct Hloop as (key & schema & child & _ & Hschema & Hfail & ->).
      cbn [message SchemaTs.unshift].
      now apply (IH key schema (lookup_In _ _ _ Hschema) (get value key)).
    + destruct (isNil value) eqn:Hnil.
      * cbn [parse SchemaTs.optional]. rewrite Hnil. discriminate.
      * rewrite WrapperFacts.optional_present_outcome by assumption.
        destruct (outcome (parse schema value)) as [[v|error]|thrown] eqn:Hchild;
          try discriminate.
        intros [= <-]. now apply (IH value).
    + cbn [parse SchemaTs.defaulted]. destruct (isNil value); [discriminate | apply IH].
  - induction 1 as [| | | |schema _ IH|shape _ IH|schema _ IH|schema defaultValue _ IH];
      intros value err.
    + cbn [parse ModTs.string]. destruct (String.eqb _ _); [discriminate|].
      intros [= <-]. cbn. tauto.
    + cbn [parse ModTs.number]. destruct (_ && _)%bool; [discriminate|].
      intros [= <-]. cbn. tauto.
    + cbn [parse ModTs.boolean]. destruct (String.eqb _ _); [discriminate|].
      intros [= <-]. cbn. tauto.
    + rewrite DateFacts.mod_date_same.
      destruct (DateFacts.date_answers value) as [(time & -> & _ & ->) | [-> | (thrown & ->)]];
        [discriminate | intros [= <-]; cbn; tauto | discriminate].
    + cbn [parse ModTs.array].
      destruct value; try (intros [= <-]; cbn; tauto).
      intros Hloop. apply EngineFacts.mod_arrayLoop_failed in Hloop.
      destruct Hloop as (element & child & Hfail & ->).
      now apply (IH element).
    + cbn [parse ModTs.object].
      destruct (ModTs.isPlainObject value); cbn [negb]; [|intros [= <-]; cbn; tauto].
      intros Hloop. apply EngineFacts.mod_objectLoop_failed in Hloop.
      destruct Hloop as (key & schema & child & Hschema & Hfail & ->).
      now apply (IH key schema (lookup_In _ _ _ Hschema) (get value key)).
    + cbn [parse ModTs.optional]. destruct (_ || _)%bool; [discriminate|].
      rewrite outcome_bind.
      destruct (outcome (parse schema value)) as [[v|error]|thrown] eqn:Hchild;
        try discriminate.
      intros [= <-]. now apply (IH value).
    + cbn [parse ModTs.defaulted]. destruct (_ || _)%bool; [discriminate | apply IH].
Qed.

Lemma X17_messages_are_fixed_witness :
  In "Expecting boolean" schemaMessages.
Proof.
  apply (proj1 X17_messages_are_fixed
           (SchemaTs.array (SchemaTs.defaulted SchemaTs.boolean (VNumber 0)))
           (SchemaTs.built_array _
              (SchemaTs.built_defaulted _ _ SchemaTs.built_boolean))
           (VArray [VNull; VString "yes"])
           {| path := ["1"]; message := "Expecting boolean"; input := VString "yes" |}).
  vm_compute. reflexivity.
Defined.

(** X18.  [array] stops at the first element its child rejects: when the
    elements before it are accepted, the error is the child's with the
    index of that element in front, and the whole computation, calls
    included, is the one on the array cut after that element; the elements
    after it are not validated. *)
Theorem X18_array_stops_at_first_failure :
  forall (schema : Schema) (before : list Value) (element : Value)
         (after : list Value) (child : ParseError),
    (forall x, In x before -> exists v, outcome (parse schema x) = Returned (ResOk v)) ->
    outcome (parse schema element) = Returned (ResErr child) ->
    outcome (parse (SchemaTs.array schema) (VArray (before ++ element :: after)))
      = Returned (ResErr {| path := toString (List.length before) :: path child;
                            message := message child;
                            input := input child |})
    /\ parse (SchemaTs.array schema) (VArray (before ++ element :: after))
       = parse (SchemaTs.array schema) (VArray (before ++ [element])).
Proof.
  intros schema before element after child Hbefore Hfail.
  cbn [parse SchemaTs.array]. split.
  - now rewrite (arrayLoop_first_failure schema before 0 [] element after child).
  - now apply EngineFacts.arrayLoop_stops with (child := child).
Qed.

Lemma X18_array_stops_at_first_failure_witness :
  outcome (parse (SchemaTs.array SchemaTs.number)
                 (VArray ([VNumber 1] ++ VString "x" :: [VNull; VNumber 3])))
    = Returned (ResErr {| path := ["1"]; message := "Expecting number";
                          input := VString "x" |})
  /\ parse (SchemaTs.array SchemaTs.number)
           (VArray ([VNumber 1] ++ VString "x" :: [VNull; VNumber 3]))
     = parse (SchemaTs.array SchemaTs.number) (VArray ([VNumber 1] ++ [VString "x"])).
Proof.
  apply (X18_array_stops_at_first_failure SchemaTs.number [VNumber 1] (VString "x")
           [VNull; VNumber 3]
           {| path := []; message := "Expecting number"; input := VString "x" |}).
  - intros x [<- | []]. now exists (VNumber 1).
  - reflexivity.
Defined.



(** X20.  [object(shape)] reads its input only under the shape's field
    names: two plain objects that read alike under every declared name get
    the same computation, outcome and calls, whatever else they hold and
    whichever of the two plain prototypes they have. *)
Theorem X20_object_reads_declared_fields_only :
  forall (shape : list (string * Schema)) (first second : Value),
    isPlainObject first = true ->
    isPlainObject second = true ->
    (forall key, In key (List.map fst shape) -> get first key = get second key) ->
    parse (SchemaTs.object shape) first = parse (SchemaTs.object shape) second.
Proof.
  intros shape first second Hfirst Hsecond Hsame.
  cbn [parse SchemaTs.object]. rewrite Hfirst, Hsecond. cbn [negb].
  apply EngineFacts.objectLoop_reads_keys.
  intros key Hkey. apply Hsame. now apply forIn_In.
Qed.

Lemma X20_object_reads_declared_fields_only_witness :
  parse (SchemaTs.object [("a", SchemaTs.number); ("b", SchemaTs.optional SchemaTs.string)])
        (literal [("z", VNumber 99); ("a", VNumber 1)])
  = parse (SchemaTs.object [("a", SchemaTs.number); ("b", SchemaTs.optional SchemaTs.string)])
          (VObject NullPrototype [("a", VNumber 1); ("b", VUndefined)]).
Proof.
  apply X20_object_reads_declared_fields_only.
  - reflexivity.
  - reflexivity.
  - intros key [<- | [<- | []]]; reflexivity.
Defined.

(** X21.  Whatever the child is, a success of [optional(child)] of
    [schema.ts] is an option object: [Some] of a value that is neither
    [null] nor [undefined], which the child answered for a present input,
    or [None], which stands for an absent input or for a child that
    answered an absent value. *)
Theorem X21_optional_answers_an_option :
  forall (child : Schema) (value out : Value),
    outcome (parse (SchemaTs.optional child) value) = Returned (ResOk out) ->
    exists option : Option Value,
      out = asValue option /\
      match option with
      | OptSome inner =>
          isNil inner = false /\ isNil value = false /\
          outcome (parse child value) = Returned (ResOk inner)
      | OptNone =>
          isNil value = true \/
          exists absent, outcome (parse child value) = Returned (ResOk absent) /\
                         isNil absent = true
      end.
Proof.
  intros child value out. destruct (isNil value) eqn:Hnil.
  - cbn [parse SchemaTs.optional]. rewrite Hnil. intros [= <-].
    exists OptNone. split; [reflexivity | now left].
  - rewrite WrapperFacts.optional_present_outcome by assumption.
    destruct (outcome (parse child value)) as [[v|error]|thrown] eqn:Hchild;
      try discriminate.
    destruct (isNil v) eqn:Hv; intros [= <-].
    + exists OptNone. split; [reflexivity|]. right. now exists v.
    + exists (OptSome v). now repeat split.
Qed.

Lemma X21_optional_answers_an_option_witness :
  exists option : Option Value,
    present (VArray [VNumber 5]) = asValue option /\
    match option with
    | OptSome inner =>
        isNil inner = false /\ isNil (VArray [VNumber 5]) = false /\
        outcome (parse (SchemaTs.array SchemaTs.number) (VArray [VNumber 5]))
          = Returned (ResOk inner)
    | OptNone =>
        isNil (VArray [VNumber 5]) = true \/
        exists absent,
          outcome (parse (SchemaTs.array SchemaTs.number) (VArray [VNumber 5]))
            = Returned (ResOk absent) /\
          isNil absent = true
    end.
Proof.
  apply (X21_optional_answers_an_option (SchemaTs.array SchemaTs.number)
           (VArray [VNumber 5])).
  vm_compute. reflexivity.
Defined.

(** X22.  Absent in, absent out, and only through the wrappers.  A schema
    built from the constructors answers a present input with a present
    value; and if it accepts [null] or [undefined], it is an [optional],
    answering [None], or a [defaulted], answering its default: the six
    other constructors reject an absent input. *)
Theorem X22_absent_only_through_wrappers :
  forall schema : Schema,
    SchemaTs.built schema ->
    forall value v : Value,
      outcome (parse schema value) = Returned (ResOk v) ->
      (isNil value = false -> isNil v = false) /\
      (isNil value = true ->
         (exists child, schema = SchemaTs.optional child /\ v = OptionTs.None_) \/
         (exists child defaultValue,
            schema = SchemaTs.defaulted child defaultValue /\ v = defaultValue)).
Proof.
  intros schema Hbuilt value v Hok. split.
  - intros Hpresent.
    exact (WrapperFacts.built_value_present schema Hbuilt value v Hpresent Hok).
  - intros Habsent.
    destruct Hbuilt as [| | | |child _|shape _|child _|child defaultValue _].
    + destruct value; discriminate.
    + destruct value; discriminate.
    + destruct value; discriminate.
    + destruct value; discriminate.
    + destruct value; discriminate.
    + destruct value; discriminate.
    + left. exists child. split; [reflexivity|].
      cbn [parse SchemaTs.optional] in Hok. rewrite Habsent in Hok.
      now injection Hok as <-.
    + right. exists child, defaultValue. split; [reflexivity|].
      cbn [parse SchemaTs.defaulted] in Hok. rewrite Habsent in Hok.
      now injection Hok as <-.
Qed.

Lemma X22_absent_only_through_wrappers_witness :
  (isNil VUndefined = false -> isNil (VNumber 0) = false) /\
  (isNil VUndefined = true ->
     (exists child,
        SchemaTs.defaulted SchemaTs.number (VNumber 0) = SchemaTs.optional child /\
        VNumber 0 = OptionTs.None_) \/
     (exists child defaultValue,
        SchemaTs.defaulted SchemaTs.number (VNumber 0)
          = SchemaTs.defaulted child defaultValue /\
        VNumber 0 = defaultValue)).
Proof.
  apply (X22_absent_only_through_wrappers
           (SchemaTs.defaulted SchemaTs.number (VNumber 0))
           (SchemaTs.built_defaulted _ _ SchemaTs.built_number)
           VUndefined (VNumber 0)).
  reflexivity.
Defined.

(** X23.  A success of [array(schema)] is an array of the same length as
    the input whose element at each index is what the child answered for
    the input's element at that index; the empty array is accepted without
    invoking the child. *)
Theorem X23_array_success_is_elementwise :
  (forall (schema : Schema) (elements : list Value) (out : Value),
     outcome (parse (SchemaTs.array schema) (VArray elements)) = Returned (ResOk out) ->
     exists values : list Value,
       out = VArray values /\
       List.length values = List.length elements /\
       forall i element,
         nth_error elements i = Some element ->
         exists v, nth_error values i = Some v /\
                   outcome (parse schema element) = Returned (ResOk v))
  /\
  (forall schema : Schema,
     parse (SchemaTs.array schema) (VArray []) = ([CallOk], Returned (ResOk (VArray [])))).
Proof.
  split; [|reflexivity].
  intros schema elements out Hok. cbn [parse SchemaTs.array] in Hok.
  apply arrayLoop_succeeded in Hok. destruct Hok as (values & -> & Hall).
  exists values. split; [reflexivity|]. split.
  - symmetry. exact (Forall2_length Hall).
  - induction Hall as [|x w rest values Hx _ IH]; intros [|i] element; cbn;
      try discriminate.
    + intros [= <-]. now exists w.
    + apply IH.
Qed.

Lemma X23_array_success_is_elementwise_witness :
  exists values : list Value,
    VArray [present (VNumber 1); OptionTs.None_] = VArray values /\
    List.length values = List.length [VNumber 1; VNull] /\
    forall i element,
      nth_error [VNumber 1; VNull] i = Some element ->
      exists v, nth_error values i = Some v /\
                outcome (parse (SchemaTs.optional SchemaTs.number) element)
                  = Returned (ResOk v).
Proof.
  apply (proj1 X23_array_success_is_elementwise (SchemaTs.optional SchemaTs.number)
           [VNumber 1; VNull]).
  vm_compute. reflexivity.
Defined.




